(** * tyde: the daily tide chart of [tides.py]

    A shallow embedding of the chart arithmetic of [tides.py]: the
    progress-to-pixel mappings, the background bands, the tide line loop with
    its extremum labels, and the terminator polygon of [draw_moon].

    Numbers.  Python [int] values are [Z].  Python [float] values of the chart
    (heights, progress fractions, timestamps) are modelled as exact rationals
    [Q]; the moon, whose code calls [sqrt] and [cos], is modelled over the
    reals [R].  Rounding of binary64 arithmetic is therefore not part of
    that model: its statements are about the exact arithmetic the code
    writes down.  The one place where rounding decides what the code does,
    the padded range of the vertical scaling and the division by it, is
    modelled a second time in binary64 ([tide_domain_b64]).

    Drawing.  The canvas calls of the script ([draw.rectangle], [draw.text],
    [draw.line], [polygon], ...) are recorded, in program order, as a list of
    drawing operations. *)

From Stdlib Require PrimFloat FloatOps SpecFloat.
From Stdlib Require Import String Ascii Qabs Qpower.
From Stdlib Require Import ZArith QArith Qround Qminmax List Bool Lia Lqa.
From Stdlib Require Import Reals Lra Permutation Sorted.
Import ListNotations.

Local Open Scope Z_scope.

(** ** Python numeric primitives *)

(** [int(q)] on a float: truncation toward zero. *)
Definition py_int (q : Q) : Z := Z.quot (Qnum q) (Zpos (Qden q)).

(** ** Exceptions

    A computation either returns or raises; [x <- m ;; k] sequences two of
    them, as consecutive Python statements do. *)

Inductive PyError := ZeroDivisionError | ValueError.

Inductive Result (A : Type) :=
| Ok (a : A)
| Raise (e : PyError).
Arguments Ok {A} a.
Arguments Raise {A} e.

Definition bind {A B : Type} (m : Result A) (k : A -> Result B) : Result B :=
  match m with
  | Ok a => k a
  | Raise e => Raise e
  end.

Notation "x <- m ;; k" := (bind m (fun x => k))
  (at level 61, m at next level, right associativity).

(** [a / b] on floats raises [ZeroDivisionError] when [b] is zero. *)
Definition py_div (a b : Q) : Result Q :=
  if Qeq_bool b 0 then Raise ZeroDivisionError else Ok (a / b)%Q.

(** [a // b] on ints: floor division, raising when [b] is zero. *)
Definition py_floordiv (a b : Z) : Result Z :=
  if b =? 0 then Raise ZeroDivisionError else Ok (a / b).

(** [min(values)] and [max(values)] on a non-empty list: the first element
    is kept unless a later one is strictly smaller (larger). *)
Definition py_min (x : Q) (xs : list Q) : Q :=
  fold_left (fun m y => if Qlt_le_dec y m then y else m) xs x.

Definition py_max (x : Q) (xs : list Q) : Q :=
  fold_left (fun m y => if Qlt_le_dec m y then y else m) xs x.

(** On an empty list both raise [ValueError]. *)
Definition list_min (l : list Q) : Result Q :=
  match l with
  | [] => Raise ValueError
  | x :: xs => Ok (py_min x xs)
  end.

Definition list_max (l : list Q) : Result Q :=
  match l with
  | [] => Raise ValueError
  | x :: xs => Ok (py_max x xs)
  end.

(** [range(lo, hi)] *)
Definition range (lo hi : Z) : list Z :=
  map (fun k => lo + Z.of_nat k) (seq 0 (Z.to_nat (hi - lo))).

(** ** Palette and drawing operations *)

Inductive PaletteColor := WHITE | BLACK | RED | YELLOW | ORANGE | BLUE.

(** The text of a label; the rendered string is not modelled, only what it
    is computed from. *)
Inductive Label :=
| HourLabel (hour : Z)
| HeightLabel (value : Q)
| TimeLabel (timestamp : Z).

Inductive DrawOp :=
| Rectangle (x0 y0 x1 y1 : Z) (fill : PaletteColor)
| Text (x y : Z) (label : Label) (fill : PaletteColor)
| Line (x0 y0 x1 y1 : Z) (fill : PaletteColor) (width : Z).

(** ** Display and graph dimensions (lines 180-208) *)

Record Display := { display_width : Z; display_height : Z }.

Record Graph := {
  graph_x : Z;
  graph_y : Z;
  graph_width : Z;
  graph_height : Z
}.

Definition y_top : Z := 0.
Definition y_bottom (d : Display) : Z := display_height d.

Definition graph_of (d : Display) : Graph := {|
  graph_x := 0;
  graph_y := py_int (inject_Z (display_height d) * (1 # 2) - 32)%Q;
  graph_width := display_width d;
  graph_height := py_int (inject_Z (display_height d) * (1 # 2))%Q
|}.

(** ** Coordinate mapping *)

(** [int(graph_x + (progress * graph_width))], lines 224-231 and 255. *)
Definition x_of_progress (g : Graph) (progress : Q) : Z :=
  py_int (inject_Z (graph_x g) + progress * inject_Z (graph_width g))%Q.

(** [int(graph_x + (i * graph_width) // (len(predictions) - 1))], line 272. *)
Definition x_of_index (g : Graph) (i n : Z) : Result Z :=
  q <- py_floordiv (i * graph_width g) (n - 1) ;;
  Ok (graph_x g + q).

(** Line 274; the float division raises when [tide_range] is zero. *)
Definition y_of_value (g : Graph) (value min_tide tide_range : Q) : Result Z :=
  ratio <- py_div (value - min_tide)%Q tide_range ;;
  Ok (graph_y g + graph_height g
      - py_int (ratio * inject_Z (graph_height g))%Q).

(** The mapper as the specification words it, with [round] to the nearest
    integer (ties to even, as Python's [round]). *)
Definition round_nearest (q : Q) : Z :=
  let f := Qfloor q in
  match (q - inject_Z f ?= 1 # 2)%Q with
  | Lt => f
  | Gt => f + 1
  | Eq => if Z.even f then f else f + 1
  end.

Definition xOf_spec (g : Graph) (progress : Q) : Z :=
  graph_x g + round_nearest (progress * inject_Z (graph_width g))%Q.

Definition yOf_spec (g : Graph) (value domainMin domainMax : Q) : Z :=
  graph_y g + graph_height g
  - round_nearest ((value - domainMin) / (domainMax - domainMin)
                   * inject_Z (graph_height g))%Q.

(** ** Inputs of one render *)

Inductive TimeFormat := H24 | H12.

(** One entry of ["predictions"], with ["t"] already parsed to a UTC
    timestamp in seconds ([parse_time_str(p["t"], 0)]) and ["v"] already
    converted by [float]. *)
Record Prediction := { pred_t : Z; pred_v : Q }.

(** What [astral.sun.sun] returns, as timestamps. *)
Record AstralSun := {
  astral_dawn : Q;
  astral_sunrise : Q;
  astral_sunset : Q;
  astral_dusk : Q
}.

Record SunTimes := {
  dawn : Q;
  sunrise : Q;
  golden_start : Q;
  golden_end : Q;
  evening_golden_start : Q;
  evening_golden_end : Q;
  sunset : Q;
  dusk : Q
}.

(** Lines 103-118. *)
Definition calculate_sun_times (s : AstralSun) : SunTimes := {|
  dawn := astral_dawn s;
  sunrise := astral_sunrise s;
  golden_start := astral_sunrise s;
  golden_end := (astral_sunrise s + 3600)%Q;
  evening_golden_start := (astral_sunset s - 3600)%Q;
  evening_golden_end := astral_sunset s;
  sunset := astral_sunset s;
  dusk := astral_dusk s
|}.

Record Env := {
  display : Display;
  tz_offset : Z;            (* whole hours *)
  timeFormat : TimeFormat;
  local_midnight : Z;       (* timestamp of local midnight, seconds *)
  astral : AstralSun
}.

(** [(instant - local_midnight).total_seconds() / (24 * 3600)] *)
Definition progress_of (env : Env) (timestamp : Q) : Q :=
  ((timestamp - inject_Z (local_midnight env)) / 86400)%Q.

(** [datetime.fromtimestamp(t, local_tz).minute] *)
Definition local_minute (env : Env) (t : Z) : Z :=
  ((t + tz_offset env * 3600) / 60) mod 60.

(** ** Background bands (lines 224-247)

    [x_golden_start] and [x_evening_golden_end] are computed by the script
    but used by no drawing call; they are left out. *)

Definition draw_backgrounds (env : Env) : list DrawOp :=
  let d := display env in
  let g := graph_of d in
  let sun_times := calculate_sun_times (astral env) in
  let x_dawn := x_of_progress g (progress_of env (dawn sun_times)) in
  let x_sunrise := x_of_progress g (progress_of env (sunrise sun_times)) in
  let x_golden_end := x_of_progress g (progress_of env (golden_end sun_times)) in
  let x_evening_golden_start :=
    x_of_progress g (progress_of env (evening_golden_start sun_times)) in
  let x_sunset := x_of_progress g (progress_of env (sunset sun_times)) in
  let x_dusk := x_of_progress g (progress_of env (dusk sun_times)) in
  [ Rectangle (graph_x g) y_top x_dawn (y_bottom d) BLUE;
    Rectangle x_dusk y_top (graph_x g + graph_width g) (y_bottom d) BLUE;
    Rectangle x_dawn y_top x_sunrise (y_bottom d) ORANGE;
    Rectangle x_sunset y_top x_dusk (y_bottom d) ORANGE;
    Rectangle x_sunrise y_top x_golden_end (y_bottom d) YELLOW;
    Rectangle x_evening_golden_start y_top x_sunset (y_bottom d) YELLOW;
    Rectangle x_golden_end y_top x_evening_golden_start (y_bottom d) WHITE ].

(** ** Hour labels (lines 250-268) *)

(** [progress <= dawn_progress or progress >= dusk_progress] *)
Definition is_night (dawn_progress dusk_progress progress : Q) : bool :=
  Qle_bool progress dawn_progress || Qle_bool dusk_progress progress.

Definition label_padding : Z := 16.

Definition hour_label (tf : TimeFormat) (hour : Z) : Label :=
  match tf with
  | H24 => HourLabel hour
  | H12 => HourLabel (if hour mod 12 =? 0 then 12 else hour mod 12)
  end.

Definition draw_hour_labels (env : Env) : list DrawOp :=
  let g := graph_of (display env) in
  let sun_times := calculate_sun_times (astral env) in
  let dawn_progress := progress_of env (dawn sun_times) in
  let dusk_progress := progress_of env (dusk sun_times) in
  let graph_bottom := graph_y g + graph_height g in
  map (fun hour =>
         let progress := (inject_Z hour / 24)%Q in
         let x := x_of_progress g progress in
         let label_y := graph_bottom + label_padding in
         let text_color :=
           if is_night dawn_progress dusk_progress progress
           then WHITE else BLACK in
         Text x label_y (hour_label (timeFormat env) hour) text_color)
      (range 1 24).

(** ** Tide lines and extremum labels (lines 270-309) *)

Definition Qlt_bool (a b : Q) : bool := negb (Qle_bool b a).

(** [value > prev_val and value > next_val] *)
Definition is_peak (prev_val value next_val : Q) : bool :=
  Qlt_bool prev_val value && Qlt_bool next_val value.

(** [value < prev_val and value < next_val] *)
Definition is_trough (prev_val value next_val : Q) : bool :=
  Qlt_bool value prev_val && Qlt_bool value next_val.

Definition is_extremum (prev_val value next_val : Q) : bool :=
  is_peak prev_val value next_val || is_trough prev_val value next_val.

(** [dawn_progress <= progress <= dusk_progress] *)
Definition in_daylight (dawn_progress dusk_progress progress : Q) : bool :=
  Qle_bool dawn_progress progress && Qle_bool progress dusk_progress.

(** [i > 0 and i < len(predictions) - 1] *)
Definition is_interior (predictions : list Prediction) (i : nat) : bool :=
  (0 <? Z.of_nat i) && (Z.of_nat i <? Z.of_nat (length predictions) - 1).

(** [predictions[i-1]["v"]] and [predictions[i+1]["v"]]; both exist behind
    the guard. *)
Definition prev_val_at (predictions : list Prediction) (i : nat)
    (pred : Prediction) : Q :=
  pred_v (nth (i - 1) predictions pred).

Definition next_val_at (predictions : list Prediction) (i : nat)
    (pred : Prediction) : Q :=
  pred_v (nth (i + 1) predictions pred).

(** The guard with the neighbour comparison behind it, lines 293-296. *)
Definition extremum_at (predictions : list Prediction) (i : nat)
    (pred : Prediction) : bool :=
  if is_interior predictions i then
    let prev_val := prev_val_at predictions i pred in
    let next_val := next_val_at predictions i pred in
    is_extremum prev_val (pred_v pred) next_val
  else false.

(** The two halves of the comparison, each behind the same guard. *)
Definition peak_at (predictions : list Prediction) (i : nat)
    (pred : Prediction) : bool :=
  is_interior predictions i
  && is_peak (prev_val_at predictions i pred) (pred_v pred)
             (next_val_at predictions i pred).

Definition trough_at (predictions : list Prediction) (i : nat)
    (pred : Prediction) : bool :=
  is_interior predictions i
  && is_trough (prev_val_at predictions i pred) (pred_v pred)
               (next_val_at predictions i pred).

(** The samples the loop flags, in loop order. *)
Definition select_indexed {A : Type} (P : nat -> A -> bool) (k : nat)
    (l : list A) : list A :=
  map snd (filter (fun ia => P (fst ia) (snd ia)) (combine (seq k (length l)) l)).

Definition extrema (predictions : list Prediction) : list Prediction :=
  select_indexed (extremum_at predictions) 0 predictions.

Definition peaks (predictions : list Prediction) : list Prediction :=
  select_indexed (peak_at predictions) 0 predictions.

Definition troughs (predictions : list Prediction) : list Prediction :=
  select_indexed (trough_at predictions) 0 predictions.

(** The two [draw.text] calls of an extremum, lines 293-309. *)
Definition extremum_labels (env : Env) (predictions : list Prediction)
    (i : nat) (pred : Prediction) (x y : Z) : list DrawOp :=
  let sun_times := calculate_sun_times (astral env) in
  let dawn_progress := progress_of env (dawn sun_times) in
  let dusk_progress := progress_of env (dusk sun_times) in
  if extremum_at predictions i pred then
    let progress := progress_of env (inject_Z (pred_t pred)) in
    if in_daylight dawn_progress dusk_progress progress then
      let text_color := BLACK in
      [ Text x (y - 15) (HeightLabel (pred_v pred)) text_color;
        Text x (y - 35) (TimeLabel (pred_t pred)) text_color ]
    else []
  else [].

Definition line_color_of (env : Env) (pred : Prediction) : PaletteColor :=
  let sun_times := calculate_sun_times (astral env) in
  let dawn_progress := progress_of env (dawn sun_times) in
  let dusk_progress := progress_of env (dusk sun_times) in
  let progress := progress_of env (inject_Z (pred_t pred)) in
  if is_night dawn_progress dusk_progress progress then WHITE else BLACK.

Definition line_width_of (env : Env) (pred : Prediction) : Z :=
  let is_full_hour := local_minute env (pred_t pred) =? 0 in
  if is_full_hour then 2 else 1.

(** One iteration of the loop of line 271. *)
Definition plot_prediction (env : Env) (predictions : list Prediction)
    (min_tide tide_range : Q) (i : nat) (pred : Prediction)
    : Result (list DrawOp) :=
  let g := graph_of (display env) in
  x <- x_of_index g (Z.of_nat i) (Z.of_nat (length predictions)) ;;
  let value := pred_v pred in
  y <- y_of_value g value min_tide tide_range ;;
  Ok (Line x (graph_y g + graph_height g) x y
           (line_color_of env pred) (line_width_of env pred)
      :: extremum_labels env predictions i pred x y).

(** [enumerate(l)] *)
Definition enumerate {A : Type} (l : list A) : list (nat * A) :=
  combine (seq 0 (length l)) l.

(** A [for] loop whose body draws: the operations of the iterations in
    order, or the first exception (what was drawn before it is then not
    reported). *)
Fixpoint for_each {A : Type} (body : A -> Result (list DrawOp)) (l : list A)
    : Result (list DrawOp) :=
  match l with
  | [] => Ok []
  | a :: rest =>
      ops <- body a ;;
      more <- for_each body rest ;;
      Ok (ops ++ more)
  end.

(** The vertical domain, lines 199-202, in exact arithmetic; the same
    lines with binary64 rounding are [tide_domain_b64]. *)
Definition tide_domain (values : list Q) : Result (Q * Q) :=
  m <- list_min values ;;
  let min_tide := (m - (1 # 2))%Q in
  max_tide <- list_max values ;;
  let tide_range := (max_tide - min_tide)%Q in
  Ok (min_tide, tide_range).

(** The body of [if len(predictions) >= 2:], lines 198-309. *)
Definition draw_chart (env : Env) (predictions : list Prediction)
    : Result (list DrawOp) :=
  let values := map pred_v predictions in
  dom <- tide_domain values ;;
  let '(min_tide, tide_range) := dom in
  lines <- for_each (fun ip => plot_prediction env predictions min_tide
                                 tide_range (fst ip) (snd ip))
                    (enumerate predictions) ;;
  Ok (draw_backgrounds env ++ draw_hour_labels env ++ lines).

(** ** The fetch and its guards (lines 173-197) *)

(** The parsed response: a JSON object that may hold ["predictions"]. *)
Record TideJson := { json_predictions : option (list Prediction) }.

Inductive FetchOutcome :=
| FetchRaised                 (* [urlopen] or [json.loads] raised *)
| FetchReturned (data : TideJson).

(** [try: ... except Exception: tide_data = None] *)
Definition tide_data_of (f : FetchOutcome) : option TideJson :=
  match f with
  | FetchRaised => None
  | FetchReturned data => Some data
  end.

(** The filter of lines 194-195. *)
Definition in_local_day (env : Env) (p : Prediction) : bool :=
  (local_midnight env <=? pred_t p) && (pred_t p <? local_midnight env + 86400).

(** Lines 190-309. *)
Definition draw_tide_information (env : Env) (tide_data : option TideJson)
    : Result (list DrawOp) :=
  match tide_data with
  | Some {| json_predictions := Some predictions |} =>
      let predictions := filter (in_local_day env) predictions in
      if 2 <=? Z.of_nat (length predictions)
      then draw_chart env predictions
      else Ok []
  | _ => Ok []
  end.

(** ** The canvas *)

Definition Canvas := Z -> Z -> PaletteColor.

Definition putpixel (c : Canvas) (x y : Z) (color : PaletteColor) : Canvas :=
  fun x' y' => if (x' =? x) && (y' =? y) then color else c x' y'.

(** Lines 185-187: every pixel of the display is set to white. *)
Definition draw_background (d : Display) (img : Canvas) : Canvas :=
  fold_left
    (fun img y =>
       fold_left (fun img x => putpixel img x y WHITE)
                 (range 0 (display_width d)) img)
    (range y_top (y_bottom d)) img.

(** [draw.rectangle([x0, y0, x1, y1], fill)] covers both end points. *)
Definition in_rectangle (x0 y0 x1 y1 x y : Z) : bool :=
  (x0 <=? x) && (x <=? x1) && (y0 <=? y) && (y <=? y1).

(** The colour the rectangles of [ops] leave at [(x, y)] of [img]: the fill
    of the last one that covers the pixel. *)
Definition paint_rectangles (ops : list DrawOp) (img : Canvas) : Canvas :=
  fold_left
    (fun img op =>
       match op with
       | Rectangle x0 y0 x1 y1 fill =>
           fun x y => if in_rectangle x0 y0 x1 y1 x y then fill else img x y
       | _ => img
       end)
    ops img.

Section Render.

(** The rasteriser of the imaging library, one call at a time. *)
Variable draw_op : DrawOp -> Canvas -> Canvas.

Definition run_ops (ops : list DrawOp) (img : Canvas) : Canvas :=
  fold_left (fun img op => draw_op op img) ops img.

(** Lines 173-309: the fetch outcome, the background, the tide step. *)
Definition render_tides (env : Env) (f : FetchOutcome) (img : Canvas)
    : Result Canvas :=
  let tide_data := tide_data_of f in
  let img := draw_background (display env) img in
  ops <- draw_tide_information env tide_data ;;
  Ok (run_ops ops img).

End Render.

(** ** The moon (lines 120-162 and 311-317) *)

Definition Rle_bool (a b : R) : bool := if Rle_dec a b then true else false.
Definition Rlt_bool (a b : R) : bool := if Rlt_dec a b then true else false.

Definition Point := (R * R)%type.

(** [sqrt(radius**2 - y_offset**2)]: half the width of the disc in the row
    at vertical offset [y_offset]. *)
Definition moon_width (radius y_offset : Z) : R :=
  sqrt (IZR (radius ^ 2 - y_offset ^ 2)).

(** One iteration of the loop of line 139: the points appended for [i]. *)
Definition terminator_row (radius : Z) (phase : R) (i : Z) : list Point :=
  let phase_angle := (phase * 2 * PI)%R in
  let y_offset := i in
  let width := moon_width radius y_offset in
  if Rle_bool 0 phase && Rlt_bool phase (1 / 2) then
    (* Waxing *)
    let x_offset := (- width * cos phase_angle)%R in
    [ ((IZR radius + x_offset)%R, IZR (radius + y_offset));
      (0%R, IZR (radius + y_offset)) ]
  else if Rle_bool (1 / 2) phase && Rle_bool phase 1 then
    (* Waning *)
    let x_offset := (width * cos phase_angle)%R in
    [ ((IZR radius + x_offset)%R, IZR (radius + y_offset));
      (IZR (radius * 2), IZR (radius + y_offset)) ]
  else [].

Definition terminator_points (radius : Z) (phase : R) : list Point :=
  flat_map (terminator_row radius phase) (range (- radius) (radius + 1)).

(** [points.sort(key=lambda p: p[1])]: a stable sort on the second
    component. *)
Fixpoint insert_by_y (p : Point) (l : list Point) : list Point :=
  match l with
  | [] => [p]
  | q :: rest =>
      if Rle_bool (snd p) (snd q) then p :: q :: rest
      else q :: insert_by_y p rest
  end.

Definition sort_by_y (l : list Point) : list Point :=
  fold_right insert_by_y [] l.

Inductive MoonOp :=
| MaskEllipse (x0 y0 x1 y1 : Z)
| DiscEllipse (x0 y0 x1 y1 : Z) (outline fill : PaletteColor)
| Polygon (points : list Point) (fill : PaletteColor)
| Paste (x y : Z).

(** The calls of [draw_moon] on the mask, on the temporary image and on
    the canvas, in order; its [color] argument is used by none of them. *)
Definition draw_moon (x y radius : Z) (phase : R) : list MoonOp :=
  let points := sort_by_y (terminator_points radius phase) in
  [ MaskEllipse 0 0 (radius * 2) (radius * 2);
    DiscEllipse 0 0 (radius * 2) (radius * 2) BLACK WHITE ]
  ++ match points with
     | [] => []
     | _ :: _ => [ Polygon points BLACK ]
     end
  ++ [ Paste (x - radius) (y - radius) ].

(** Lines 312-317. *)
Definition normalized_phase (moon_phase_today : R) : R :=
  (moon_phase_today / 28)%R.

Definition padding : Z := 30.
Definition moon_radius : Z := 40.

Definition draw_moon_phase (moon_phase_today : R) : list MoonOp :=
  let moon_x := padding + moon_radius in
  let moon_y := padding + moon_radius in
  draw_moon moon_x moon_y moon_radius (normalized_phase moon_phase_today).

(** ** The specification's wording, for comparison *)

(** The bands in left-to-right boundary order, as the painting contract
    lists them. *)
Definition band_x (env : Env) (event : SunTimes -> Q) : Z :=
  x_of_progress (graph_of (display env))
    (progress_of env (event (calculate_sun_times (astral env)))).

Definition bands_left_to_right (env : Env) : list DrawOp :=
  let d := display env in
  let g := graph_of d in
  [ Rectangle (graph_x g) y_top (band_x env dawn) (y_bottom d) BLUE;
    Rectangle (band_x env dawn) y_top (band_x env sunrise) (y_bottom d) ORANGE;
    Rectangle (band_x env sunrise) y_top (band_x env golden_end) (y_bottom d)
              YELLOW;
    Rectangle (band_x env golden_end) y_top (band_x env evening_golden_start)
              (y_bottom d) WHITE;
    Rectangle (band_x env evening_golden_start) y_top (band_x env sunset)
              (y_bottom d) YELLOW;
    Rectangle (band_x env sunset) y_top (band_x env dusk) (y_bottom d) ORANGE;
    Rectangle (band_x env dusk) y_top (graph_x g + graph_width g) (y_bottom d)
              BLUE ].

(** Truncation toward zero, said with floor and ceiling. *)
Definition trunc_toward_zero (q : Q) : Z :=
  if Qle_bool 0 q then Qfloor q else Qceiling q.

(** The chord of the disc in the row at offset [i], in the coordinates of
    the temporary image: from [radius - width] to [radius + width]. *)
Definition chord_left (radius i : Z) : R := (IZR radius - moon_width radius i)%R.
Definition chord_right (radius i : Z) : R := (IZR radius + moon_width radius i)%R.

(** ** Closed forms and sample inputs *)

Definition display_800x480 : Display :=
  {| display_width := 800; display_height := 480 |}.

(** What one iteration of the tide loop draws when neither division
    raises. *)
Definition plot_ops (env : Env) (predictions : list Prediction)
    (min_tide tide_range : Q) (i : nat) (pred : Prediction) : list DrawOp :=
  let g := graph_of (display env) in
  let x := graph_x g
           + (Z.of_nat i * graph_width g) / (Z.of_nat (length predictions) - 1) in
  let y := graph_y g + graph_height g
           - py_int ((pred_v pred - min_tide) / tide_range
                     * inject_Z (graph_height g))%Q in
  Line x (graph_y g + graph_height g) x y
       (line_color_of env pred) (line_width_of env pred)
  :: extremum_labels env predictions i pred x y.

(** The vertical domain of a series, total: what [tide_domain] returns on a
    non-empty series, in exact arithmetic. *)
Definition chart_min_tide (predictions : list Prediction) : Q :=
  match map pred_v predictions with
  | [] => 0
  | x :: xs => py_min x xs - (1 # 2)
  end%Q.

Definition chart_tide_range (predictions : list Prediction) : Q :=
  match map pred_v predictions with
  | [] => 0
  | x :: xs => py_max x xs - (py_min x xs - (1 # 2))
  end%Q.

Definition chart_lines (env : Env) (predictions : list Prediction)
    : list (list DrawOp) :=
  map (fun ip => plot_ops env predictions (chart_min_tide predictions)
                   (chart_tide_range predictions) (fst ip) (snd ip))
      (enumerate predictions).

(** A day at UTC-8: local midnight is 08:00 UTC; dawn 05:00, sunrise 06:30,
    sunset 18:00 and dusk 19:30 local time. *)
Definition sample_env : Env := {|
  display := display_800x480;
  tz_offset := -8;
  timeFormat := H24;
  local_midnight := 28800;
  astral := {| astral_dawn := 46800; astral_sunrise := 52200;
               astral_sunset := 93600; astral_dusk := 99000 |}
|}.

(** The scenario series of heights 1.0, 2.0, 1.5, 0.5, 1.0, sampled at
    01:00, 06:00, 11:00, 16:00 and 21:00 local time of [sample_env]. *)
Definition scenario_series : list Prediction :=
  [ {| pred_t := 32400; pred_v := 1 |};
    {| pred_t := 50400; pred_v := 2 |};
    {| pred_t := 68400; pred_v := 3 # 2 |};
    {| pred_t := 86400; pred_v := 1 # 2 |};
    {| pred_t := 104400; pred_v := 1 |} ].

(** Four samples at 02:00, 08:00, 14:00 and 20:00 local time of
    [sample_env]. *)
Definition four_samples : list Prediction :=
  [ {| pred_t := 36000; pred_v := 1 |};
    {| pred_t := 57600; pred_v := 2 |};
    {| pred_t := 79200; pred_v := 3 |};
    {| pred_t := 100800; pred_v := 2 |} ].

(** The colour the seven rectangles leave in column [x] when the
    boundaries are in day order: a shared boundary column keeps the colour
    painted last, which is that of the band nearer to midday. *)
Definition band_color_at (env : Env) (x : Z) : PaletteColor :=
  if x <? band_x env dawn then BLUE
  else if x <? band_x env sunrise then ORANGE
  else if x <? band_x env golden_end then YELLOW
  else if x <=? band_x env evening_golden_start then WHITE
  else if x <=? band_x env sunset then YELLOW
  else if x <=? band_x env dusk then ORANGE
  else BLUE.

(** The polygon of [draw_moon] when every row contributes its terminator
    point [(term i, y)] and its edge point [(edge, y)]. *)
Definition rows_polygon (radius : Z) (term : Z -> R) (edge : R) : list Point :=
  flat_map (fun i => [ (term i, IZR (radius + i)); (edge, IZR (radius + i)) ])
           (range (- radius) (radius + 1)).

(** The order the sort establishes. *)
Definition le_y (p q : Point) : Prop := (snd p <= snd q)%R.






(** Reflection of a point of the temporary image in its vertical axis
    [x = radius]. *)
Definition mirror (radius : Z) (p : Point) : Point :=
  ((IZR (radius * 2) - fst p)%R, snd p).

(** ** Time labels (lines 258 and 303)

    The label strings the chart model leaves abstract.  [strftime] is taken
    in the C locale, where [%p] is AM or PM; the hour and minute are those
    of [datetime.fromtimestamp(t, local_tz)]. *)

Definition local_hour (env : Env) (t : Z) : Z :=
  ((t + tz_offset env * 3600) / 3600) mod 24.

Definition digit (n : Z) : ascii := ascii_of_nat (48 + Z.to_nat n).

(** [%H] and [%M]: two digits, zero padded. *)
Definition two_digits (n : Z) : string :=
  String (digit (n / 10)) (String (digit (n mod 10)) EmptyString).

(** [%-I]: the hour of the 12-hour clock, 1 to 12, without padding. *)
Definition hour_12 (hour : Z) : string :=
  let h := if hour mod 12 =? 0 then 12 else hour mod 12 in
  if h <? 10 then String (digit h) EmptyString else two_digits h.

(** [strftime("%H:%M")] *)
Definition strftime_24 (hour minute : Z) : string :=
  (two_digits hour ++ ":" ++ two_digits minute)%string.

(** [strftime("%-I:%M%p").lower()] *)
Definition strftime_12_lower (hour minute : Z) : string :=
  (hour_12 hour ++ ":" ++ two_digits minute
   ++ (if (hour <? 12)%Z then "am" else "pm"))%string.

(** Line 303, with the configured ["time"] string as it is. *)
Definition time_str (env : Env) (time : string) (t : Z) : string :=
  if String.eqb time "12"
  then strftime_12_lower (local_hour env t) (local_minute env t)
  else strftime_24 (local_hour env t) (local_minute env t).

(** Line 258 tests the same string against ["24"]. *)
Definition hour_format_of (time : string) : TimeFormat :=
  if String.eqb time "24" then H24 else H12.

(** ** Binary64 arithmetic of the vertical domain (lines 199-202 and 274)

    The subtractions and the division of the vertical scaling as IEEE 754
    binary64 performs them: the exact result rounded to the nearest number
    with a 53-bit significand and an exponent not below -1074, ties to the
    even significand, and to infinity from 2^1024 on.  A finite value is the
    rational it denotes (the two zeros are one); infinities and NaN are
    values of their own. *)

Definition pow2 (e : Z) : Q := (2 ^ e)%Q.

(** floor(log2 |q|), for q other than 0. *)
Definition Qlog2_floor (q : Q) : Z :=
  let l := Z.log2 (Z.abs (Qnum q)) - Z.log2 (Zpos (Qden q)) in
  if Qle_bool (pow2 l) (Qabs q) then l else l - 1.

(** The exponent of the unit in the last place of [q]. *)
Definition b64_exponent (q : Q) : Z := Z.max (-1074) (Qlog2_floor q - 52).

(** Round to nearest, ties to even, with unbounded exponent range above. *)
Definition b64_nearest (q : Q) : Q :=
  if Qeq_bool q 0 then 0
  else
    let e := b64_exponent q in
    Qred (inject_Z (round_nearest (q / pow2 e)) * pow2 e).

Inductive Float64 :=
| Finite (q : Q)
| Infinity (negative : bool)
| NaN.

Definition b64_round (q : Q) : Float64 :=
  let r := b64_nearest q in
  if Qlt_bool (Qabs r) (pow2 1024) then Finite r
  else Infinity (Qlt_bool r 0).

(** [a - b] on floats. *)
Definition b64_sub (a b : Float64) : Float64 :=
  match a, b with
  | NaN, _ | _, NaN => NaN
  | Infinity s, Infinity s' => if Bool.eqb s s' then NaN else Infinity s
  | Infinity s, Finite _ => Infinity s
  | Finite _, Infinity s => Infinity (negb s)
  | Finite x, Finite y => b64_round (x - y)
  end.

(** [a < b] on floats; false whenever one side is NaN. *)
Definition b64_ltb (a b : Float64) : bool :=
  match a, b with
  | NaN, _ | _, NaN => false
  | Finite x, Finite y => Qlt_bool x y
  | Finite _, Infinity s => negb s
  | Infinity s, Finite _ => s
  | Infinity s, Infinity s' => s && negb s'
  end.

(** [a / b] on floats: [ZeroDivisionError] when [b] is zero, whatever [a]
    is. *)
Definition b64_div (a b : Float64) : Result Float64 :=
  match b with
  | Finite y =>
      if Qeq_bool y 0 then Raise ZeroDivisionError
      else match a with
           | Finite x => Ok (b64_round (x / y))
           | Infinity s => Ok (Infinity (xorb s (Qlt_bool y 0)))
           | NaN => Ok NaN
           end
  | Infinity _ =>
      match a with
      | Finite _ => Ok (Finite 0)
      | _ => Ok NaN
      end
  | NaN => Ok NaN
  end.

(** [min] and [max] on a non-empty list of floats, as [py_min] and
    [py_max]. *)
Definition py_min64 (x : Float64) (xs : list Float64) : Float64 :=
  fold_left (fun m y => if b64_ltb y m then y else m) xs x.

Definition py_max64 (x : Float64) (xs : list Float64) : Float64 :=
  fold_left (fun m y => if b64_ltb m y then y else m) xs x.

(** Lines 199-202 in binary64. *)
Definition tide_domain_b64 (values : list Float64)
    : Result (Float64 * Float64) :=
  match values with
  | [] => Raise ValueError
  | x :: xs =>
      let min_tide := b64_sub (py_min64 x xs) (Finite (1 # 2)) in
      let max_tide := py_max64 x xs in
      let tide_range := b64_sub max_tide min_tide in
      Ok (min_tide, tide_range)
  end.

(** [(value - min_tide) / tide_range] of line 274 in binary64. *)
Definition y_ratio_b64 (value min_tide tide_range : Float64)
    : Result Float64 :=
  b64_div (b64_sub value min_tide) tide_range.

(** [float(s)] for a decimal string denoting the rational [q]. *)
Definition float_of_decimal (q : Q) : Float64 := b64_round q.

(** The rational a primitive binary64 value denotes, to compare
    [b64_nearest] with the arithmetic of the machine. *)
Definition Q_of_prim (f : PrimFloat.float) : option Q :=
  match FloatOps.Prim2SF f with
  | SpecFloat.S754_zero _ => Some 0%Q
  | SpecFloat.S754_finite s m e =>
      Some (Qred ((if s then -1 else 1) * inject_Z (Zpos m) * pow2 e)%Q)
  | _ => None
  end.

(** * Properties *)

(** ** Arithmetic of [int] *)

Lemma py_int_trunc (q : Q) : py_int q = trunc_toward_zero q.
Proof.
  destruct q as [n d]. unfold py_int, trunc_toward_zero, Qle_bool; simpl.
  rewrite Z.mul_1_r.
  destruct (Z.leb_spec 0 n) as [Hn | Hn].
  - apply Z.quot_div_nonneg; lia.
  - unfold Qceiling, Qfloor, Qopp; simpl.
    rewrite <- (Z.opp_involutive n) at 1.
    rewrite Z.quot_opp_l by lia.
    rewrite Z.quot_div_nonneg by lia. reflexivity.
Qed.

Lemma py_int_nonneg_floor (q : Q) : (0 <= q)%Q -> py_int q = Qfloor q.
Proof.
  intros H. rewrite py_int_trunc. unfold trunc_toward_zero.
  apply Qle_bool_iff in H. rewrite H. reflexivity.
Qed.

Lemma py_int_inject_Z (z : Z) : py_int (inject_Z z) = z.
Proof. unfold py_int; simpl. apply Z.quot_1_r. Qed.

Lemma py_int_comp (p q : Q) : (p == q)%Q -> py_int p = py_int q.
Proof.
  intros H. rewrite !py_int_trunc. unfold trunc_toward_zero.
  assert (Hb : Qle_bool 0 p = Qle_bool 0 q).
  { destruct (Qle_bool 0 p) eqn:Hp, (Qle_bool 0 q) eqn:Hq; try reflexivity.
    - apply Qle_bool_iff in Hp. rewrite H in Hp.
      apply Qle_bool_iff in Hp. congruence.
    - apply Qle_bool_iff in Hq. rewrite <- H in Hq.
      apply Qle_bool_iff in Hq. congruence. }
  rewrite Hb. destruct (Qle_bool 0 q); rewrite H; reflexivity.
Qed.

Lemma py_int_mono (p q : Q) : (p <= q)%Q -> py_int p <= py_int q.
Proof.
  intros H. rewrite !py_int_trunc. unfold trunc_toward_zero.
  destruct (Qle_bool 0 p) eqn:Hp, (Qle_bool 0 q) eqn:Hq.
  - now apply Qfloor_resp_le.
  - apply Qle_bool_iff in Hp.
    assert (Hq' : (0 <= q)%Q) by (eapply Qle_trans; eauto).
    apply Qle_bool_iff in Hq'. congruence.
  - apply Z.le_trans with (Qceiling 0).
    + apply Qceiling_resp_le.
      destruct (Qlt_le_dec p 0) as [Hlt | Hle].
      * now apply Qlt_le_weak.
      * apply Qle_bool_iff in Hle. congruence.
    + change (Qceiling 0) with (Qfloor 0).
      apply Qfloor_resp_le. now apply Qle_bool_iff.
  - now apply Qceiling_resp_le.
Qed.

Lemma Qfloor_plus_Z (z : Z) (q : Q) :
  Qfloor (inject_Z z + q) = z + Qfloor q.
Proof.
  destruct q as [n d]. unfold Qfloor, Qplus, inject_Z; simpl.
  rewrite Z.mul_1_r.
  replace (z * Z.pos d + n) with (n + z * Z.pos d) by ring.
  rewrite Z.div_add by lia. ring.
Qed.

(** ** The coordinate mapper *)

Lemma x_of_index_value (g : Graph) (i n : Z) :
  2 <= n ->
  x_of_index g i n = Ok (graph_x g + (i * graph_width g) / (n - 1)).
Proof.
  intros Hn. unfold x_of_index, py_floordiv.
  destruct (Z.eqb_spec (n - 1) 0) as [E | _]; [lia | reflexivity].
Qed.

(** C8. On a graph of non-negative width the progress-to-x mapping of the
    code is monotonic non-decreasing in progress over [0,1], sends progress 0
    to the origin and progress 1 to origin + width; the index-based mapping
    of the tide loop has the same three properties over the indices
    0 .. n-1. *)
Theorem x_of_progress_monotone_endpoints (g : Graph)
    (Hwidth : 0 <= graph_width g) :
  (forall p q : Q, (0 <= p)%Q -> (p <= q)%Q -> (q <= 1)%Q ->
     x_of_progress g p <= x_of_progress g q) /\
  x_of_progress g 0 = graph_x g /\
  x_of_progress g 1 = graph_x g + graph_width g /\
  (forall n i j : Z, 2 <= n -> 0 <= i -> i <= j -> j <= n - 1 ->
     exists xi xj, x_of_index g i n = Ok xi /\ x_of_index g j n = Ok xj /\
                   xi <= xj) /\
  (forall n : Z, 2 <= n ->
     x_of_index g 0 n = Ok (graph_x g) /\
     x_of_index g (n - 1) n = Ok (graph_x g + graph_width g)).
Proof.
  repeat split.
  - intros p q _ Hpq _. unfold x_of_progress. apply py_int_mono.
    apply Qplus_le_compat; [apply Qle_refl|].
    apply Qmult_le_compat_r; [exact Hpq|].
    change 0%Q with (inject_Z 0). rewrite <- Zle_Qle. exact Hwidth.
  - unfold x_of_progress.
    rewrite (py_int_comp _ (inject_Z (graph_x g))) by ring.
    apply py_int_inject_Z.
  - unfold x_of_progress.
    rewrite (py_int_comp _ (inject_Z (graph_x g + graph_width g))).
    + apply py_int_inject_Z.
    + rewrite inject_Z_plus. ring.
  - intros n i j Hn Hi Hij Hj.
    rewrite !x_of_index_value by exact Hn.
    do 2 eexists. repeat split.
    apply Z.add_le_mono_l. apply Z.div_le_mono; [lia|].
    apply Z.mul_le_mono_nonneg_r; lia.
  - rewrite x_of_index_value by assumption.
    rewrite Z.mul_0_l, Z.div_0_l by lia. f_equal. lia.
  - rewrite x_of_index_value by assumption.
    rewrite Z.mul_comm, Z.div_mul by lia. reflexivity.
Qed.

Lemma x_of_progress_monotone_endpoints_witness :
  x_of_progress (graph_of display_800x480) (1 # 4)
  <= x_of_progress (graph_of display_800x480) (1 # 2).
Proof.
  apply (x_of_progress_monotone_endpoints (graph_of display_800x480)).
  - vm_compute. discriminate.
  - vm_compute. discriminate.
  - vm_compute. discriminate.
  - vm_compute. discriminate.
Defined.

Lemma py_div_nonzero (a b : Q) : ~ (b == 0)%Q -> py_div a b = Ok (a / b)%Q.
Proof.
  intros Hb. unfold py_div.
  destruct (Qeq_bool b 0) eqn:E; [|reflexivity].
  apply Qeq_bool_iff in E. contradiction.
Qed.

(** The hour-2 label on an 800 pixel wide display sits at progress 2/24,
    so at 66.67 pixels: the code draws it at 66, rounding gives 67.  A height
    2/7 of the way up a 240 pixel graph is 68.57 pixels up: the code takes
    68, rounding gives 69. *)
Lemma coordinate_mapper_round_counterexample :
  let g := graph_of display_800x480 in
  x_of_progress g (2 # 24) = 66 /\ xOf_spec g (2 # 24) = 67 /\
  x_of_progress g (2 # 24) <> xOf_spec g (2 # 24) /\
  y_of_value g 2 0 (7 - 0) = Ok 380 /\ yOf_spec g 2 0 7 = 379 /\
  y_of_value g 2 0 (7 - 0) <> Ok (yOf_spec g 2 0 7).
Proof.
  vm_compute. repeat split; discriminate.
Qed.

(** C3, amended.  For every progress in [0,1] and every value with
    domainMax > domainMin the mapper truncates toward zero where the claim
    rounds: x is [int(originX + progress * width)], which is
    originX + floor(progress * width) when origin and width are not negative
    (the code has originX = 0), and y is
    originY + height - trunc((value - domainMin) / (domainMax - domainMin)
    * height), computed without a division error. *)
Theorem coordinate_mapper_truncates (g : Graph)
    (progress value domainMin domainMax : Q)
    (Hprogress : (0 <= progress)%Q /\ (progress <= 1)%Q)
    (Hdomain : (domainMin < domainMax)%Q) :
  x_of_progress g progress
  = trunc_toward_zero (inject_Z (graph_x g)
                       + progress * inject_Z (graph_width g))%Q /\
  (0 <= graph_x g -> 0 <= graph_width g ->
   x_of_progress g progress
   = graph_x g + Qfloor (progress * inject_Z (graph_width g))%Q) /\
  y_of_value g value domainMin (domainMax - domainMin)%Q
  = Ok (graph_y g + graph_height g
        - trunc_toward_zero ((value - domainMin) / (domainMax - domainMin)
                             * inject_Z (graph_height g))%Q).
Proof.
  destruct Hprogress as [Hp0 Hp1]. repeat split.
  - apply py_int_trunc.
  - intros Hx Hw. unfold x_of_progress.
    assert (HW : (0 <= inject_Z (graph_width g))%Q)
      by (change 0%Q with (inject_Z 0); rewrite <- Zle_Qle; exact Hw).
    assert (HX : (0 <= inject_Z (graph_x g))%Q)
      by (change 0%Q with (inject_Z 0); rewrite <- Zle_Qle; exact Hx).
    rewrite py_int_nonneg_floor.
    + apply Qfloor_plus_Z.
    + assert (0 <= progress * inject_Z (graph_width g))%Q
        by (apply Qmult_le_0_compat; assumption).
      Lqa.lra.
  - unfold y_of_value. rewrite py_div_nonzero by Lqa.lra.
    simpl. rewrite py_int_trunc. reflexivity.
Qed.

Lemma coordinate_mapper_truncates_witness :
  x_of_progress (graph_of display_800x480) (2 # 24)
  = 0 + Qfloor ((2 # 24) * inject_Z 800)%Q.
Proof.
  apply (coordinate_mapper_truncates (graph_of display_800x480)
           (2 # 24) 2 0 7).
  - split; vm_compute; discriminate.
  - reflexivity.
  - vm_compute; discriminate.
  - vm_compute; discriminate.
Defined.

(** ** The vertical domain *)

Lemma py_min_le_start (xs : list Q) (x : Q) : (py_min x xs <= x)%Q.
Proof.
  revert x. induction xs as [| a xs IH]; intros x; simpl.
  - apply Qle_refl.
  - unfold py_min in *. simpl.
    destruct (Qlt_le_dec a x) as [Hlt | Hle].
    + eapply Qle_trans; [apply IH | now apply Qlt_le_weak].
    + apply IH.
Qed.

Lemma py_min_lower (xs : list Q) (x y : Q) :
  In y (x :: xs) -> (py_min x xs <= y)%Q.
Proof.
  revert x. induction xs as [| a xs IH]; intros x [E | Hin].
  - subst. apply Qle_refl.
  - destruct Hin.
  - subst. apply py_min_le_start.
  - unfold py_min in *. simpl.
    destruct Hin as [E | Hin].
    + subst.
      destruct (Qlt_le_dec y x) as [Hlt | Hle].
      * apply (IH y). now left.
      * eapply Qle_trans; [apply (py_min_le_start xs x) | exact Hle].
    + destruct (Qlt_le_dec a x); apply IH; now right.
Qed.

Lemma py_min_In (xs : list Q) (x : Q) : In (py_min x xs) (x :: xs).
Proof.
  revert x. induction xs as [| a xs IH]; intros x.
  - now left.
  - unfold py_min in *. simpl.
    destruct (Qlt_le_dec a x).
    + right. apply (IH a).
    + destruct (IH x) as [E | Hin]; [left; exact E | right; right; exact Hin].
Qed.

Lemma py_max_ge_start (xs : list Q) (x : Q) : (x <= py_max x xs)%Q.
Proof.
  revert x. induction xs as [| a xs IH]; intros x; simpl.
  - apply Qle_refl.
  - unfold py_max in *. simpl.
    destruct (Qlt_le_dec x a) as [Hlt | Hle].
    + apply Qle_trans with a; [apply Qlt_le_weak; exact Hlt | apply IH].
    + apply IH.
Qed.

Lemma py_max_upper (xs : list Q) (x y : Q) :
  In y (x :: xs) -> (y <= py_max x xs)%Q.
Proof.
  revert x. induction xs as [| a xs IH]; intros x [E | Hin].
  - subst. apply Qle_refl.
  - destruct Hin.
  - subst. apply py_max_ge_start.
  - unfold py_max in *. simpl.
    destruct Hin as [E | Hin].
    + subst.
      destruct (Qlt_le_dec x y) as [Hlt | Hle].
      * apply (IH y). now left.
      * eapply Qle_trans; [exact Hle | apply (py_max_ge_start xs x)].
    + destruct (Qlt_le_dec x a); apply IH; now right.
Qed.

Lemma py_max_In (xs : list Q) (x : Q) : In (py_max x xs) (x :: xs).
Proof.
  revert x. induction xs as [| a xs IH]; intros x.
  - now left.
  - unfold py_max in *. simpl.
    destruct (Qlt_le_dec x a).
    + right. apply (IH a).
    + destruct (IH x) as [E | Hin]; [left; exact E | right; right; exact Hin].
Qed.

Lemma tide_range_at_least_half (x : Q) (xs : list Q) :
  (1 # 2 <= py_max x xs - (py_min x xs - (1 # 2)))%Q.
Proof.
  pose proof (py_min_le_start xs x). pose proof (py_max_ge_start xs x).
  Lqa.lra.
Qed.

Lemma for_each_ok {A : Type} (body : A -> Result (list DrawOp))
    (f : A -> list DrawOp) (l : list A) :
  (forall a, In a l -> body a = Ok (f a)) ->
  for_each body l = Ok (concat (map f l)).
Proof.
  induction l as [| a l IH]; intros H; simpl.
  - reflexivity.
  - rewrite (H a) by now left. simpl.
    rewrite IH by (intros b Hb; apply H; now right). reflexivity.
Qed.

Lemma plot_prediction_ok (env : Env) (predictions : list Prediction)
    (min_tide tide_range : Q) (i : nat) (pred : Prediction) :
  (2 <= length predictions)%nat -> ~ (tide_range == 0)%Q ->
  plot_prediction env predictions min_tide tide_range i pred
  = Ok (plot_ops env predictions min_tide tide_range i pred).
Proof.
  intros Hn Hr. unfold plot_prediction, plot_ops.
  rewrite x_of_index_value by lia. simpl.
  unfold y_of_value. rewrite py_div_nonzero by exact Hr. reflexivity.
Qed.

Lemma chart_tide_range_nonzero (predictions : list Prediction) :
  predictions <> [] ->
  (1 # 2 <= chart_tide_range predictions)%Q /\
  ~ (chart_tide_range predictions == 0)%Q.
Proof.
  intros Hne. unfold chart_tide_range.
  destruct predictions as [| p ps]; [congruence|]. simpl.
  pose proof (tide_range_at_least_half (pred_v p) (map pred_v ps)).
  split; [assumption | Lqa.lra].
Qed.

Lemma draw_chart_ok (env : Env) (predictions : list Prediction) :
  (2 <= length predictions)%nat ->
  draw_chart env predictions
  = Ok (draw_backgrounds env ++ draw_hour_labels env
        ++ concat (chart_lines env predictions)).
Proof.
  intros Hn. unfold draw_chart, chart_lines.
  assert (Hne : predictions <> []) by (destruct predictions; simpl in *; [lia | congruence]).
  destruct (chart_tide_range_nonzero predictions Hne) as [_ Hr].
  unfold tide_domain, chart_min_tide, chart_tide_range in *.
  destruct predictions as [| p ps]; [congruence|].
  cbn [map list_min list_max bind] in *.
  erewrite for_each_ok; [reflexivity|].
  intros [i pred] _. cbn [fst snd].
  apply plot_prediction_ok; assumption.
Qed.

(** The vertical domain in exact arithmetic.  For every non-empty series,
    with the subtractions taken exactly, domainMin = min(heights) - 0.5 and
    domainMax = max(heights), where min and max are a least and a greatest
    height of the series; the range domainMax - domainMin is at least 0.5,
    and exactly 0.5 when all heights are equal; the y-scaling division of
    the exact model returns for every value.  What binary64 makes of these
    subtractions is the subject of [tide_range_positive_b64]. *)
Theorem tide_range_never_degenerate (v0 : Q) (vs : list Q) :
  let min_tide := (py_min v0 vs - (1 # 2))%Q in
  let max_tide := py_max v0 vs in
  let tide_range := (max_tide - min_tide)%Q in
  tide_domain (v0 :: vs) = Ok (min_tide, tide_range) /\
  (In (py_min v0 vs) (v0 :: vs) /\
   forall v, In v (v0 :: vs) -> (py_min v0 vs <= v)%Q) /\
  (In (py_max v0 vs) (v0 :: vs) /\
   forall v, In v (v0 :: vs) -> (v <= py_max v0 vs)%Q) /\
  (1 # 2 <= tide_range)%Q /\ (0 < tide_range)%Q /\
  ((forall v, In v (v0 :: vs) -> (v == v0)%Q) -> (tide_range == 1 # 2)%Q) /\
  (forall (g : Graph) (value : Q),
     y_of_value g value min_tide tide_range
     = Ok (graph_y g + graph_height g
           - py_int ((value - min_tide) / tide_range
                     * inject_Z (graph_height g))%Q)) /\
  (forall (env : Env) (p q : Prediction) (ps : list Prediction),
     exists ops, draw_chart env (p :: q :: ps) = Ok ops).
Proof.
  intros min_tide max_tide tide_range.
  pose proof (tide_range_at_least_half v0 vs) as Hhalf.
  fold min_tide max_tide tide_range in Hhalf.
  repeat split.
  - apply py_min_In.
  - apply py_min_lower.
  - apply py_max_In.
  - apply py_max_upper.
  - exact Hhalf.
  - Lqa.lra.
  - intros Hall.
    pose proof (Hall _ (py_min_In vs v0)) as Hmin.
    pose proof (Hall _ (py_max_In vs v0)) as Hmax.
    unfold tide_range, max_tide, min_tide. rewrite Hmin, Hmax. ring.
  - intros g value. unfold y_of_value.
    rewrite py_div_nonzero by Lqa.lra. reflexivity.
  - intros env p q ps. eexists. apply draw_chart_ok. simpl. lia.
Qed.

(** ** The skipped tide step *)

Lemma In_range (lo hi z : Z) : In z (range lo hi) <-> lo <= z < hi.
Proof.
  unfold range. rewrite in_map_iff. split.
  - intros [k [E Hk]]. apply in_seq in Hk. lia.
  - intros H. exists (Z.to_nat (z - lo)). split; [lia|].
    apply in_seq. lia.
Qed.

Lemma putpixel_row_white (xs : list Z) (img : Canvas) (y x' y' : Z) :
  (y' = y /\ In x' xs) \/ img x' y' = WHITE ->
  fold_left (fun img x => putpixel img x y WHITE) xs img x' y' = WHITE.
Proof.
  revert img. induction xs as [| a xs IH]; intros img H; simpl.
  - destruct H as [[_ []] | H]; exact H.
  - apply IH. unfold putpixel.
    destruct (Z.eqb_spec x' a) as [Ex | Nx], (Z.eqb_spec y' y) as [Ey | Ny];
      simpl; auto.
    + destruct H as [[Hy _] | H]; [contradiction | auto].
    + destruct H as [[Hy [Ha | Hin]] | H]; [congruence | auto | auto].
    + destruct H as [[Hy _] | H]; [contradiction | auto].
Qed.

Lemma putpixel_rows_white (xs ys : list Z) (img : Canvas) (x y : Z) :
  In x xs -> In y ys \/ img x y = WHITE ->
  fold_left (fun img y0 =>
               fold_left (fun img x0 => putpixel img x0 y0 WHITE) xs img)
            ys img x y = WHITE.
Proof.
  intros Hx. revert img. induction ys as [| b ys IH]; intros img H; simpl.
  - destruct H as [[] | H]; exact H.
  - apply IH. destruct H as [[E | Hin] | H].
    + right. subst b. apply putpixel_row_white. left. now split.
    + now left.
    + right. apply putpixel_row_white. now right.
Qed.

Lemma draw_background_white (d : Display) (img : Canvas) (x y : Z) :
  0 <= x < display_width d -> 0 <= y < display_height d ->
  draw_background d img x y = WHITE.
Proof.
  intros Hx Hy. unfold draw_background.
  apply putpixel_rows_white.
  - apply In_range; lia.
  - left. apply In_range. unfold y_top, y_bottom; lia.
Qed.

Lemma draw_tide_information_skipped (env : Env) (f : FetchOutcome) :
  f = FetchRaised \/
  (exists data, f = FetchReturned data /\
     (json_predictions data = None \/
      exists ps, json_predictions data = Some ps /\
                 (length (filter (in_local_day env) ps) < 2)%nat)) ->
  draw_tide_information env (tide_data_of f) = Ok [].
Proof.
  intros [E | [data [E [Hnone | [ps [Hsome Hlen]]]]]]; subst f; simpl.
  - reflexivity.
  - destruct data as [[ps |]]; simpl in *; [discriminate | reflexivity].
  - destruct data as [[ps' |]]; simpl in *; [|discriminate].
    injection Hsome as ->.
    destruct (Z.leb_spec 2 (Z.of_nat (length (filter (in_local_day env) ps))));
      [lia | reflexivity].
Qed.

(** C6. If the fetch raises, or the response has no predictions, or fewer
    than two predictions remain after the local-day filter, the tide step
    issues no drawing operation (no bands, hour labels, lines or extremum
    labels) and raises nothing, and the canvas is the background as the fill
    loop left it, white at every pixel of the display.  The rasteriser of the
    drawing calls is arbitrary. *)
Theorem tide_step_skipped (draw_op : DrawOp -> Canvas -> Canvas)
    (env : Env) (f : FetchOutcome) (img : Canvas)
    (Hskip : f = FetchRaised \/
             (exists data, f = FetchReturned data /\
                (json_predictions data = None \/
                 exists ps, json_predictions data = Some ps /\
                            (length (filter (in_local_day env) ps) < 2)%nat))) :
  draw_tide_information env (tide_data_of f) = Ok [] /\
  render_tides draw_op env f img = Ok (draw_background (display env) img) /\
  (forall x y : Z,
     0 <= x < display_width (display env) ->
     0 <= y < display_height (display env) ->
     draw_background (display env) img x y = WHITE).
Proof.
  pose proof (draw_tide_information_skipped env f Hskip) as Hops.
  repeat split.
  - exact Hops.
  - unfold render_tides. rewrite Hops. reflexivity.
  - intros x y Hx Hy. now apply draw_background_white.
Qed.

Lemma tide_step_skipped_witness :
  render_tides (fun _ img => img) sample_env
    (FetchReturned {| json_predictions :=
       Some [ {| pred_t := 30000; pred_v := 1 |};
              {| pred_t := 200000; pred_v := 2 |} ] |})
    (fun _ _ => BLACK)
  = Ok (draw_background (display sample_env) (fun _ _ => BLACK)).
Proof.
  apply (tide_step_skipped (fun _ img => img) sample_env).
  right. eexists. split; [reflexivity|]. right.
  eexists. split; [reflexivity|]. vm_compute. lia.
Defined.

(** ** Extrema and their labels *)

Lemma nth_error_combine_seq {A : Type} (l : list A) :
  forall (k i : nat) (a : A),
    nth_error l i = Some a ->
    nth_error (combine (seq k (length l)) l) i = Some ((k + i)%nat, a).
Proof.
  induction l as [| b l IH]; intros k i a H.
  - destruct i; discriminate.
  - destruct i as [| i]; simpl in *.
    + injection H as ->. now rewrite Nat.add_0_r.
    + rewrite (IH (S k) i a H). do 2 f_equal. lia.
Qed.

Lemma nth_error_enumerate {A : Type} (l : list A) (i : nat) (a : A) :
  nth_error l i = Some a -> nth_error (enumerate l) i = Some (i, a).
Proof. intros H. unfold enumerate. now rewrite (nth_error_combine_seq l 0 i a H). Qed.

Lemma Qlt_bool_iff (a b : Q) : Qlt_bool a b = true <-> (a < b)%Q.
Proof.
  unfold Qlt_bool. rewrite negb_true_iff. split.
  - intros H. apply Qnot_le_lt. intros Hle.
    apply Qle_bool_iff in Hle. congruence.
  - intros H. destruct (Qle_bool b a) eqn:E; [|reflexivity].
    apply Qle_bool_iff in E. exfalso. eapply Qlt_not_le; eauto.
Qed.

Lemma is_peak_iff (a v b : Q) :
  is_peak a v b = true <-> (a < v)%Q /\ (b < v)%Q.
Proof. unfold is_peak. now rewrite andb_true_iff, !Qlt_bool_iff. Qed.

Lemma is_trough_iff (a v b : Q) :
  is_trough a v b = true <-> (v < a)%Q /\ (v < b)%Q.
Proof. unfold is_trough. now rewrite andb_true_iff, !Qlt_bool_iff. Qed.

Lemma in_daylight_iff (a b p : Q) :
  in_daylight a b p = true <-> (a <= p)%Q /\ (p <= b)%Q.
Proof. unfold in_daylight. now rewrite andb_true_iff, !Qle_bool_iff. Qed.

Lemma is_night_iff (a b p : Q) :
  is_night a b p = true <-> (p <= a)%Q \/ (b <= p)%Q.
Proof. unfold is_night. now rewrite orb_true_iff, !Qle_bool_iff. Qed.

Lemma is_interior_iff (predictions : list Prediction) (i : nat) :
  is_interior predictions i = true
  <-> (0 < i)%nat /\ (i + 1 < length predictions)%nat.
Proof.
  unfold is_interior. rewrite andb_true_iff, !Z.ltb_lt. lia.
Qed.

Lemma extremum_at_split (predictions : list Prediction) (i : nat)
    (pred : Prediction) :
  extremum_at predictions i pred
  = peak_at predictions i pred || trough_at predictions i pred.
Proof.
  unfold extremum_at, peak_at, trough_at, is_extremum.
  destruct (is_interior predictions i); reflexivity.
Qed.



(** The scenario of the specification: index 1 is the only peak, index 3
    the only trough, and in [sample_env] both fall in daylight and are
    labelled. *)
Example scenario_extrema :
  peaks scenario_series = [ {| pred_t := 50400; pred_v := 2 |} ] /\
  troughs scenario_series = [ {| pred_t := 86400; pred_v := 1 # 2 |} ] /\
  extrema scenario_series
  = [ {| pred_t := 50400; pred_v := 2 |};
      {| pred_t := 86400; pred_v := 1 # 2 |} ] /\
  extremum_labels sample_env scenario_series 1
    {| pred_t := 50400; pred_v := 2 |} 100 50
  = [ Text 100 35 (HeightLabel 2) BLACK; Text 100 15 (TimeLabel 50400) BLACK ].
Proof. vm_compute. repeat split. Qed.

(** ** Reversal *)

Lemma is_peak_swap (a v b : Q) : is_peak a v b = is_peak b v a.
Proof. unfold is_peak. apply andb_comm. Qed.

Lemma is_trough_swap (a v b : Q) : is_trough a v b = is_trough b v a.
Proof. unfold is_trough. apply andb_comm. Qed.

Lemma is_interior_rev (l : list Prediction) (i : nat) :
  (i < length l)%nat ->
  is_interior (rev l) i = is_interior l (length l - 1 - i).
Proof.
  intros Hi. unfold is_interior. rewrite length_rev.
  destruct (Z.ltb_spec 0 (Z.of_nat i)),
           (Z.ltb_spec (Z.of_nat i) (Z.of_nat (length l) - 1)),
           (Z.ltb_spec 0 (Z.of_nat (length l - 1 - i))),
           (Z.ltb_spec (Z.of_nat (length l - 1 - i)) (Z.of_nat (length l) - 1));
    simpl; try reflexivity; lia.
Qed.

Lemma neighbours_rev (l : list Prediction) (i : nat) (pred : Prediction) :
  is_interior (rev l) i = true ->
  prev_val_at (rev l) i pred = next_val_at l (length l - 1 - i) pred /\
  next_val_at (rev l) i pred = prev_val_at l (length l - 1 - i) pred.
Proof.
  intros H. apply is_interior_iff in H. rewrite length_rev in H.
  unfold prev_val_at, next_val_at.
  rewrite !rev_nth by lia. split; do 2 f_equal; lia.
Qed.

Lemma peak_at_rev (l : list Prediction) (i : nat) (pred : Prediction) :
  (i < length l)%nat ->
  peak_at (rev l) i pred = peak_at l (length l - 1 - i) pred.
Proof.
  intros Hi. unfold peak_at. rewrite <- is_interior_rev by exact Hi.
  destruct (is_interior (rev l) i) eqn:E; [|reflexivity].
  destruct (neighbours_rev l i pred E) as [-> ->]. simpl.
  apply is_peak_swap.
Qed.

Lemma trough_at_rev (l : list Prediction) (i : nat) (pred : Prediction) :
  (i < length l)%nat ->
  trough_at (rev l) i pred = trough_at l (length l - 1 - i) pred.
Proof.
  intros Hi. unfold trough_at. rewrite <- is_interior_rev by exact Hi.
  destruct (is_interior (rev l) i) eqn:E; [|reflexivity].
  destruct (neighbours_rev l i pred E) as [-> ->]. simpl.
  apply is_trough_swap.
Qed.

Lemma extremum_at_rev (l : list Prediction) (i : nat) (pred : Prediction) :
  (i < length l)%nat ->
  extremum_at (rev l) i pred = extremum_at l (length l - 1 - i) pred.
Proof.
  intros Hi. rewrite !extremum_at_split.
  now rewrite peak_at_rev, trough_at_rev.
Qed.

Lemma select_indexed_cons {A : Type} (P : nat -> A -> bool) (k : nat)
    (a : A) (l : list A) :
  select_indexed P k (a :: l)
  = (if P k a then [a] else []) ++ select_indexed P (S k) l.
Proof.
  unfold select_indexed. simpl. destruct (P k a); reflexivity.
Qed.

Lemma select_indexed_app {A : Type} (P : nat -> A -> bool) (l1 l2 : list A) :
  forall k, select_indexed P k (l1 ++ l2)
            = select_indexed P k l1
              ++ select_indexed P (k + length l1) l2.
Proof.
  induction l1 as [| a l1 IH]; intros k.
  - simpl. now rewrite Nat.add_0_r.
  - change ((a :: l1) ++ l2) with (a :: (l1 ++ l2)).
    rewrite !select_indexed_cons, IH, <- app_assoc. simpl length.
    now rewrite Nat.add_succ_r.
Qed.

Lemma select_indexed_rev {A : Type} (l : list A) :
  forall (P Q : nat -> A -> bool) (k k' : nat),
    (forall i a, (i < length l)%nat ->
                 P (k + i)%nat a = Q (k' + (length l - 1 - i))%nat a) ->
    select_indexed P k (rev l) = rev (select_indexed Q k' l).
Proof.
  induction l as [| a l IH]; intros P Q k k' H.
  - reflexivity.
  - simpl rev.
    rewrite select_indexed_app, (select_indexed_cons Q k' a l), rev_app_distr.
    rewrite length_rev.
    rewrite (IH P Q k (S k')).
    + f_equal. rewrite select_indexed_cons.
      change (select_indexed P (S (k + length l)) []) with (@nil A).
      rewrite app_nil_r.
      rewrite (H (length l) a) by (simpl; lia).
      replace (k' + (length (a :: l) - 1 - length l))%nat with k'
        by (simpl; lia).
      destruct (Q k' a); reflexivity.
    + intros i b Hi. rewrite (H i b) by (simpl; lia).
      f_equal. simpl. lia.
Qed.

(** C9. Detection is symmetric under reversal.  Position i of the reversed
    series holds the sample of position n-1-i of the original, and is
    flagged there exactly when it is flagged in the original, a peak as a
    peak and a trough as a trough; so the reversed series yields the same
    flagged samples, with the same timestamps, in reverse order. *)
Theorem extrema_reversal_symmetric (predictions : list Prediction) :
  (forall (i : nat) (pred : Prediction),
     (i < length predictions)%nat ->
     nth_error (rev predictions) i
     = nth_error predictions (length predictions - 1 - i) /\
     extremum_at (rev predictions) i pred
     = extremum_at predictions (length predictions - 1 - i) pred /\
     peak_at (rev predictions) i pred
     = peak_at predictions (length predictions - 1 - i) pred /\
     trough_at (rev predictions) i pred
     = trough_at predictions (length predictions - 1 - i) pred) /\
  extrema (rev predictions) = rev (extrema predictions) /\
  peaks (rev predictions) = rev (peaks predictions) /\
  troughs (rev predictions) = rev (troughs predictions) /\
  map pred_t (extrema (rev predictions))
  = rev (map pred_t (extrema predictions)) /\
  (forall pred, In pred (extrema (rev predictions))
                <-> In pred (extrema predictions)).
Proof.
  assert (E : extrema (rev predictions) = rev (extrema predictions)).
  { unfold extrema. apply select_indexed_rev.
    intros i a Hi. simpl. now apply extremum_at_rev. }
  split; [|split; [exact E | split; [|split; [|split]]]].
  - intros i pred Hi. split; [|split; [|split]].
    + rewrite nth_error_rev.
      destruct (Nat.ltb_spec i (length predictions)); [|lia].
      f_equal. lia.
    + now apply extremum_at_rev.
    + now apply peak_at_rev.
    + now apply trough_at_rev.
  - unfold peaks. apply select_indexed_rev.
    intros i a Hi. simpl. now apply peak_at_rev.
  - unfold troughs. apply select_indexed_rev.
    intros i a Hi. simpl. now apply trough_at_rev.
  - rewrite E. apply map_rev.
  - intros pred. rewrite E. symmetry. apply in_rev.
Qed.

Example scenario_reversed :
  extrema (rev scenario_series)
  = [ {| pred_t := 86400; pred_v := 1 # 2 |};
      {| pred_t := 50400; pred_v := 2 |} ] /\
  peaks (rev scenario_series) = [ {| pred_t := 50400; pred_v := 2 |} ] /\
  troughs (rev scenario_series) = [ {| pred_t := 86400; pred_v := 1 # 2 |} ].
Proof. vm_compute. repeat split. Qed.

(** ** The tide lines *)

Lemma floordiv_as_Qfloor (i w m : Z) :
  0 < m ->
  (i * w) / m = Qfloor (inject_Z i / inject_Z m * inject_Z w)%Q.
Proof.
  intros Hm. rewrite Zdiv_Qdiv. apply Qfloor_comp.
  rewrite inject_Z_mult. field.
  change 0%Q with (inject_Z 0). rewrite inject_Z_injective. lia.
Qed.




(** ** The background bands *)

(** In [sample_env] the second rectangle painted is the evening night band,
    not the morning twilight band, and column 166 (dawn) is painted blue by
    the first rectangle and then orange by the third. *)
Lemma background_order_counterexample :
  draw_backgrounds sample_env <> bands_left_to_right sample_env /\
  nth_error (draw_backgrounds sample_env) 0 = Some (Rectangle 0 0 166 480 BLUE) /\
  nth_error (draw_backgrounds sample_env) 1 = Some (Rectangle 650 0 800 480 BLUE) /\
  nth_error (draw_backgrounds sample_env) 2 = Some (Rectangle 166 0 216 480 ORANGE) /\
  nth_error (bands_left_to_right sample_env) 1
  = Some (Rectangle 166 0 216 480 ORANGE) /\
  in_rectangle 0 0 166 480 166 100 = true /\
  in_rectangle 166 0 216 480 166 100 = true /\
  paint_rectangles (firstn 1 (draw_backgrounds sample_env))
                   (fun _ _ => WHITE) 166 100 = BLUE /\
  paint_rectangles (draw_backgrounds sample_env)
                   (fun _ _ => WHITE) 166 100 = ORANGE.
Proof.
  vm_compute. repeat split. discriminate.
Qed.

Lemma Permutation_outside_in {A : Type} (a b c d e f g : A) :
  Permutation [a; g; b; f; c; e; d] [a; b; c; d; e; f; g].
Proof.
  apply perm_skip.
  apply (Permutation_cons_app [b; c; d; e; f] [] g). simpl.
  apply perm_skip.
  apply (Permutation_cons_app [c; d; e] [] f). simpl.
  apply perm_skip. apply perm_swap.
Qed.

Lemma graph_rows_on_canvas (d : Display) :
  64 <= display_height d ->
  y_top <= graph_y (graph_of d) /\
  graph_y (graph_of d) + graph_height (graph_of d) <= y_bottom d.
Proof.
  intros H. unfold y_top, y_bottom, graph_of; simpl.
  set (h := display_height d) in *.
  assert (E1 : py_int (inject_Z h * (1 # 2) - 32)%Q = (h - 64) / 2).
  { rewrite py_int_nonneg_floor.
    - rewrite (Qfloor_comp _ ((h - 64) # 2)); [reflexivity|].
      unfold Qeq, Qminus, Qplus, Qmult, Qopp, inject_Z; simpl. ring.
    - assert (Hq : (64 <= inject_Z h)%Q) by (change 64%Q with (inject_Z 64); now rewrite <- Zle_Qle).
      Lqa.lra. }
  assert (E2 : py_int (inject_Z h * (1 # 2))%Q = h / 2).
  { rewrite py_int_nonneg_floor.
    - rewrite (Qfloor_comp _ (h # 2)); [reflexivity|].
      unfold Qeq, Qmult, inject_Z; simpl. ring.
    - assert (Hq : (64 <= inject_Z h)%Q) by (change 64%Q with (inject_Z 64); now rewrite <- Zle_Qle).
      Lqa.lra. }
  rewrite E1, E2.
  pose proof (Z.div_mod h 2). pose proof (Z.mod_pos_bound h 2).
  pose proof (Z.div_mod (h - 64) 2). pose proof (Z.mod_pos_bound (h - 64) 2).
  lia.
Qed.

Ltac split_comparisons :=
  repeat match goal with
         | |- context [?a <=? ?b] =>
             destruct (Z.leb_spec a b); try (exfalso; lia)
         | |- context [?a <? ?b] =>
             destruct (Z.ltb_spec a b); try (exfalso; lia)
         end.

Lemma paint_seven_bands (img : Canvas)
    (gx w xd xr xg xe xs xk yt yb x y : Z) :
  gx <= xd -> xd <= xr -> xr <= xg -> xg <= xe -> xe <= xs -> xs <= xk ->
  xk <= gx + w -> gx <= x <= gx + w -> yt <= y <= yb ->
  paint_rectangles
    [ Rectangle gx yt xd yb BLUE; Rectangle xk yt (gx + w) yb BLUE;
      Rectangle xd yt xr yb ORANGE; Rectangle xs yt xk yb ORANGE;
      Rectangle xr yt xg yb YELLOW; Rectangle xe yt xs yb YELLOW;
      Rectangle xg yt xe yb WHITE ] img x y
  = if x <? xd then BLUE
    else if x <? xr then ORANGE
    else if x <? xg then YELLOW
    else if x <=? xe then WHITE
    else if x <=? xs then YELLOW
    else if x <=? xk then ORANGE
    else BLUE.
Proof.
  intros H1 H2 H3 H4 H5 H6 H7 Hx [Hy0 Hy1].
  unfold paint_rectangles, in_rectangle. cbn [fold_left].
  apply Z.leb_le in Hy0, Hy1. rewrite Hy0, Hy1.
  rewrite !andb_true_r.
  split_comparisons; reflexivity.
Qed.

Lemma band_colors (env : Env) (img : Canvas) (x y : Z) :
  let g := graph_of (display env) in
  graph_x g <= band_x env dawn ->
  band_x env dawn <= band_x env sunrise ->
  band_x env sunrise <= band_x env golden_end ->
  band_x env golden_end <= band_x env evening_golden_start ->
  band_x env evening_golden_start <= band_x env sunset ->
  band_x env sunset <= band_x env dusk ->
  band_x env dusk <= graph_x g + graph_width g ->
  graph_x g <= x <= graph_x g + graph_width g ->
  y_top <= y <= y_bottom (display env) ->
  paint_rectangles (draw_backgrounds env) img x y = band_color_at env x.
Proof.
  intros g H1 H2 H3 H4 H5 H6 H7 Hx Hy.
  exact (paint_seven_bands img (graph_x g) (graph_width g) _ _ _ _ _ _ _ _
           x y H1 H2 H3 H4 H5 H6 H7 Hx Hy).
Qed.

(** C2, amended.  The background is painted as seven filled rectangles
    with the boundary pairs (dayStart, dawn) blue, (dawn, sunrise) orange,
    (sunrise, goldenEnd) yellow, (goldenEnd, eveningGoldenStart) white,
    (eveningGoldenStart, sunset) yellow, (sunset, dusk) orange and
    (dusk, dayEnd) blue, each covering both of its boundary columns and all
    rows from the top to the bottom of the canvas, which contain the rows of
    the graph on a display at least 64 pixels high.  They are painted in the
    order blue, blue, orange, orange, yellow, yellow, white, not from left to
    right, so a boundary column shared by two bands is painted twice and
    keeps the colour painted last: with the boundaries in day order, a
    column left of dawn is blue, from dawn up to sunrise orange, from sunrise
    up to goldenEnd yellow, from goldenEnd to eveningGoldenStart inclusive
    white, then yellow up to and including sunset, orange up to and including
    dusk, and blue after dusk. *)
Theorem background_bands_painted (env : Env) :
  let d := display env in
  let g := graph_of d in
  draw_backgrounds env
  = [ Rectangle (graph_x g) y_top (band_x env dawn) (y_bottom d) BLUE;
      Rectangle (band_x env dusk) y_top (graph_x g + graph_width g)
                (y_bottom d) BLUE;
      Rectangle (band_x env dawn) y_top (band_x env sunrise) (y_bottom d)
                ORANGE;
      Rectangle (band_x env sunset) y_top (band_x env dusk) (y_bottom d)
                ORANGE;
      Rectangle (band_x env sunrise) y_top (band_x env golden_end)
                (y_bottom d) YELLOW;
      Rectangle (band_x env evening_golden_start) y_top (band_x env sunset)
                (y_bottom d) YELLOW;
      Rectangle (band_x env golden_end) y_top
                (band_x env evening_golden_start) (y_bottom d) WHITE ] /\
  Permutation (draw_backgrounds env) (bands_left_to_right env) /\
  (forall op, In op (draw_backgrounds env) ->
     exists x0 x1 fill, op = Rectangle x0 y_top x1 (y_bottom d) fill) /\
  (64 <= display_height d ->
   y_top <= graph_y g /\ graph_y g + graph_height g <= y_bottom d) /\
  (forall (img : Canvas) (x y : Z),
     graph_x g <= band_x env dawn ->
     band_x env dawn <= band_x env sunrise ->
     band_x env sunrise <= band_x env golden_end ->
     band_x env golden_end <= band_x env evening_golden_start ->
     band_x env evening_golden_start <= band_x env sunset ->
     band_x env sunset <= band_x env dusk ->
     band_x env dusk <= graph_x g + graph_width g ->
     graph_x g <= x <= graph_x g + graph_width g ->
     y_top <= y <= y_bottom d ->
     paint_rectangles (draw_backgrounds env) img x y = band_color_at env x).
Proof.
  intros d g. split; [reflexivity|]. split; [|split; [|split]].
  - apply Permutation_outside_in.
  - intros op Hin. unfold draw_backgrounds in Hin. cbv zeta in Hin.
    repeat (destruct Hin as [<- | Hin]; [do 3 eexists; reflexivity|]).
    destruct Hin.
  - apply graph_rows_on_canvas.
  - intros img x y. apply band_colors.
Qed.

Lemma background_bands_painted_witness :
  64 <= display_height (display sample_env) /\
  paint_rectangles (draw_backgrounds sample_env) (fun _ _ => BLACK) 166 100
  = band_color_at sample_env 166.
Proof.
  split; [vm_compute; discriminate|].
  apply (background_bands_painted sample_env);
    vm_compute; try split; discriminate.
Defined.

(** ** The moon *)

Lemma Rle_bool_iff (a b : R) : Rle_bool a b = true <-> (a <= b)%R.
Proof.
  unfold Rle_bool. destruct (Rle_dec a b); split; auto; discriminate.
Qed.

Lemma Rlt_bool_iff (a b : R) : Rlt_bool a b = true <-> (a < b)%R.
Proof.
  unfold Rlt_bool. destruct (Rlt_dec a b); split; auto; discriminate.
Qed.

Lemma Rle_bool_false (a b : R) : (b < a)%R -> Rle_bool a b = false.
Proof.
  intros H. destruct (Rle_bool a b) eqn:E; [|reflexivity].
  apply Rle_bool_iff in E. lra.
Qed.

Lemma Rlt_bool_false (a b : R) : (b <= a)%R -> Rlt_bool a b = false.
Proof.
  intros H. destruct (Rlt_bool a b) eqn:E; [|reflexivity].
  apply Rlt_bool_iff in E. lra.
Qed.

Lemma flat_map_all_nil {A B : Type} (f : A -> list B) (l : list A) :
  (forall a, f a = []) -> flat_map f l = [].
Proof.
  intros H. induction l as [| a l IH]; simpl; [reflexivity|].
  now rewrite H, IH.
Qed.

Lemma terminator_row_out_of_range (radius : Z) (phase : R) (i : Z) :
  (phase < 0)%R \/ (1 < phase)%R -> terminator_row radius phase i = [].
Proof.
  intros [H | H]; unfold terminator_row.
  - rewrite (Rle_bool_false 0 phase) by lra.
    rewrite (Rle_bool_false (1 / 2) phase) by lra. reflexivity.
  - rewrite (Rlt_bool_false phase (1 / 2)) by lra.
    rewrite (Rle_bool_false phase 1) by lra.
    rewrite !andb_false_r. reflexivity.
Qed.

(** C10. For a phase below 0 or above 1 no iteration of the terminator loop
    appends a point, for any radius: both branch guards fail, the point list
    is empty, [draw_moon] issues no polygon and the disc is the white
    ellipse with its black outline.  The caller's normalisation, division by
    28, gives a phase above 1 whenever the source phase exceeds 28. *)
Theorem draw_moon_out_of_range (x y radius : Z) (phase : R)
    (Hphase : (phase < 0)%R \/ (1 < phase)%R) :
  (forall i : Z, terminator_row radius phase i = []) /\
  terminator_points radius phase = [] /\
  draw_moon x y radius phase
  = [ MaskEllipse 0 0 (radius * 2) (radius * 2);
      DiscEllipse 0 0 (radius * 2) (radius * 2) BLACK WHITE;
      Paste (x - radius) (y - radius) ] /\
  (forall points fill, ~ In (Polygon points fill) (draw_moon x y radius phase)) /\
  (forall moon_phase_today : R,
     (28 < moon_phase_today)%R ->
     (1 < normalized_phase moon_phase_today)%R /\
     terminator_points moon_radius (normalized_phase moon_phase_today) = [] /\
     forall points fill,
       ~ In (Polygon points fill) (draw_moon_phase moon_phase_today)).
Proof.
  assert (Hrow : forall r p i, (p < 0)%R \/ (1 < p)%R -> terminator_row r p i = [])
    by (intros; now apply terminator_row_out_of_range).
  assert (Hpts : forall r p, (p < 0)%R \/ (1 < p)%R -> terminator_points r p = []).
  { intros r p Hp. unfold terminator_points. apply flat_map_all_nil.
    intros i. now apply Hrow. }
  assert (Hdraw : draw_moon x y radius phase
                  = [ MaskEllipse 0 0 (radius * 2) (radius * 2);
                      DiscEllipse 0 0 (radius * 2) (radius * 2) BLACK WHITE;
                      Paste (x - radius) (y - radius) ]).
  { unfold draw_moon. rewrite (Hpts radius phase Hphase). reflexivity. }
  split; [intros i; now apply Hrow|].
  split; [now apply Hpts|].
  split; [exact Hdraw|].
  split.
  - intros points fill Hin. rewrite Hdraw in Hin.
    destruct Hin as [E | [E | [E | []]]]; discriminate.
  - intros m Hm.
    assert (Hn : (1 < normalized_phase m)%R) by (unfold normalized_phase; lra).
    split; [exact Hn|]. split; [apply Hpts; now right|].
    intros points fill Hin. unfold draw_moon_phase, draw_moon in Hin.
    rewrite (Hpts moon_radius (normalized_phase m)) in Hin by now right.
    destruct Hin as [E | [E | [E | []]]]; discriminate.
Qed.

Lemma draw_moon_out_of_range_witness :
  draw_moon 70 70 40 (normalized_phase 29)
  = [ MaskEllipse 0 0 (40 * 2) (40 * 2);
      DiscEllipse 0 0 (40 * 2) (40 * 2) BLACK WHITE;
      Paste (70 - 40) (70 - 40) ].
Proof.
  apply (draw_moon_out_of_range 70 70 40 (normalized_phase 29)).
  right. unfold normalized_phase. lra.
Defined.

Lemma range_nil (lo hi : Z) : hi <= lo -> range lo hi = [].
Proof.
  intros H. unfold range. replace (Z.to_nat (hi - lo)) with 0%nat by lia.
  reflexivity.
Qed.

Lemma range_cons (lo hi : Z) :
  lo < hi -> range lo hi = lo :: range (lo + 1) hi.
Proof.
  intros H. unfold range.
  replace (Z.to_nat (hi - lo)) with (S (Z.to_nat (hi - (lo + 1)))) by lia.
  simpl. f_equal; [lia|].
  rewrite <- seq_shift, map_map. apply map_ext. intros k. lia.
Qed.

Lemma insert_by_y_least (p : Point) (l : list Point) :
  Forall (le_y p) l -> insert_by_y p l = p :: l.
Proof.
  intros H. destruct l as [| q l]; [reflexivity|]. simpl.
  inversion H as [| ? ? Hq _]; subst.
  apply Rle_bool_iff in Hq. now rewrite Hq.
Qed.

Lemma sort_by_y_sorted (l : list Point) :
  StronglySorted le_y l -> sort_by_y l = l.
Proof.
  induction 1 as [| p l Hs IH Hall]; simpl; [reflexivity|].
  fold (sort_by_y l). rewrite IH. now apply insert_by_y_least.
Qed.

Lemma StronglySorted_app_le_y (l1 l2 : list Point) :
  StronglySorted le_y l1 -> StronglySorted le_y l2 ->
  (forall p q, In p l1 -> In q l2 -> le_y p q) ->
  StronglySorted le_y (l1 ++ l2).
Proof.
  intros H1 H2 H. induction H1 as [| p l1 Hs IH Hall]; simpl; [exact H2|].
  constructor.
  - apply IH. intros a b Ha Hb. apply H; [now right | exact Hb].
  - apply Forall_app. split; [exact Hall|].
    apply Forall_forall. intros q Hq. apply H; [now left | exact Hq].
Qed.

(** The rows of the loop come out in increasing [y], so the stable sort of
    line 155 leaves the list as it is. *)
Lemma rows_already_sorted (radius : Z) (row : Z -> list Point) :
  (forall i p, In p (row i) -> snd p = IZR (radius + i)) ->
  forall (n : nat) (lo hi : Z),
    Z.to_nat (hi - lo) = n ->
    StronglySorted le_y (flat_map row (range lo hi)) /\
    (forall p, In p (flat_map row (range lo hi)) ->
               (IZR (radius + lo) <= snd p)%R).
Proof.
  intros Hrow. induction n as [| n IH]; intros lo hi Hn.
  - rewrite range_nil by lia. simpl. split; [constructor | intros p []].
  - rewrite range_cons by lia. simpl.
    destruct (IH (lo + 1) hi ltac:(lia)) as [Hs Hlow].
    split.
    + apply StronglySorted_app_le_y; [| exact Hs |].
      * assert (G : forall l, (forall p, In p l -> snd p = IZR (radius + lo)) ->
                              StronglySorted le_y l).
        { induction l as [| a l IHl]; intros Hl; constructor.
          - apply IHl. intros p Hp. apply Hl. now right.
          - apply Forall_forall. intros q Hq. unfold le_y.
            rewrite (Hl a) by now left. rewrite (Hl q) by now right.
            apply Rle_refl. }
        apply G. apply Hrow.
      * intros p q Hp Hq. unfold le_y. rewrite (Hrow lo p Hp).
        apply Rle_trans with (IZR (radius + (lo + 1))); [|now apply Hlow].
        apply IZR_le. lia.
    + intros p Hp. apply in_app_or in Hp. destruct Hp as [Hp | Hp].
      * rewrite (Hrow lo p Hp). apply Rle_refl.
      * apply Rle_trans with (IZR (radius + (lo + 1))); [|now apply Hlow].
        apply IZR_le. lia.
Qed.

Lemma terminator_row_y (radius : Z) (phase : R) (i : Z) (p : Point) :
  In p (terminator_row radius phase i) -> snd p = IZR (radius + i).
Proof.
  unfold terminator_row.
  destruct (Rle_bool 0 phase && Rlt_bool phase (1 / 2));
    [| destruct (Rle_bool (1 / 2) phase && Rle_bool phase 1)];
    simpl; intros H; repeat (destruct H as [<- | H]; [reflexivity|]);
    destruct H.
Qed.

Lemma sort_terminator_points (radius : Z) (phase : R) :
  sort_by_y (terminator_points radius phase) = terminator_points radius phase.
Proof.
  apply sort_by_y_sorted. unfold terminator_points.
  eapply (rows_already_sorted radius (terminator_row radius phase));
    [apply terminator_row_y | reflexivity].
Qed.

Lemma moon_width_bounds (radius i : Z) :
  0 <= radius ->
  (0 <= moon_width radius i <= IZR radius)%R.
Proof.
  intros Hr. unfold moon_width. split; [apply sqrt_pos|].
  apply Rle_trans with (sqrt (IZR radius * IZR radius)).
  - apply sqrt_le_1_alt. rewrite <- mult_IZR. apply IZR_le.
    rewrite !Z.pow_2_r. pose proof (Z.square_nonneg i). lia.
  - rewrite sqrt_square by (apply IZR_le; exact Hr). apply Rle_refl.
Qed.

Lemma moon_width_centre (radius : Z) :
  0 <= radius -> moon_width radius 0 = IZR radius.
Proof.
  intros Hr. unfold moon_width.
  replace (radius ^ 2 - 0 ^ 2) with (radius * radius) by (rewrite Z.pow_2_r; lia).
  rewrite mult_IZR. apply sqrt_square. apply IZR_le. exact Hr.
Qed.

Lemma terminator_row_phase_0 (radius i : Z) :
  terminator_row radius 0 i
  = [ (chord_left radius i, IZR (radius + i)); (0%R, IZR (radius + i)) ].
Proof.
  unfold terminator_row, chord_left.
  assert (G1 : Rle_bool 0 0 = true) by (apply Rle_bool_iff; lra).
  assert (G2 : Rlt_bool 0 (1 / 2) = true) by (apply Rlt_bool_iff; lra).
  rewrite G1, G2. simpl.
  replace (0 * 2 * PI)%R with 0%R by ring. rewrite cos_0.
  do 2 f_equal. ring.
Qed.

Lemma terminator_row_phase_half (radius i : Z) :
  terminator_row radius (1 / 2) i
  = [ (chord_left radius i, IZR (radius + i));
      (IZR (radius * 2), IZR (radius + i)) ].
Proof.
  unfold terminator_row, chord_left.
  rewrite (Rlt_bool_false (1 / 2) (1 / 2)) by lra.
  assert (G1 : Rle_bool (1 / 2) (1 / 2) = true) by (apply Rle_bool_iff; lra).
  assert (G2 : Rle_bool (1 / 2) 1 = true) by (apply Rle_bool_iff; lra).
  rewrite G1, G2, andb_false_r. simpl.
  replace (1 / 2 * 2 * PI)%R with PI by field. rewrite cos_PI.
  do 2 f_equal. ring.
Qed.

Lemma terminator_row_phase_1 (radius i : Z) :
  terminator_row radius 1 i
  = [ (chord_right radius i, IZR (radius + i));
      (IZR (radius * 2), IZR (radius + i)) ].
Proof.
  unfold terminator_row, chord_right.
  rewrite (Rlt_bool_false 1 (1 / 2)) by lra.
  assert (G1 : Rle_bool (1 / 2) 1 = true) by (apply Rle_bool_iff; lra).
  assert (G2 : Rle_bool 1 1 = true) by (apply Rle_bool_iff; lra).
  rewrite G1, G2, andb_false_r. simpl.
  replace (1 * 2 * PI)%R with (2 * PI)%R by ring. rewrite cos_2PI.
  do 2 f_equal. ring.
Qed.

Lemma rows_polygon_nonempty (radius : Z) (term : Z -> R) (edge : R) :
  0 <= radius -> rows_polygon radius term edge <> [].
Proof.
  intros Hr. unfold rows_polygon. rewrite range_cons by lia. discriminate.
Qed.

Lemma draw_moon_with_points (x y radius : Z) (phase : R)
    (term : Z -> R) (edge : R) :
  0 <= radius ->
  (forall i, terminator_row radius phase i
             = [ (term i, IZR (radius + i)); (edge, IZR (radius + i)) ]) ->
  draw_moon x y radius phase
  = [ MaskEllipse 0 0 (radius * 2) (radius * 2);
      DiscEllipse 0 0 (radius * 2) (radius * 2) BLACK WHITE;
      Polygon (rows_polygon radius term edge) BLACK;
      Paste (x - radius) (y - radius) ].
Proof.
  intros Hr Hrow. unfold draw_moon. rewrite sort_terminator_points.
  assert (E : terminator_points radius phase = rows_polygon radius term edge).
  { unfold terminator_points, rows_polygon. apply flat_map_ext. exact Hrow. }
  rewrite E.
  pose proof (rows_polygon_nonempty radius term edge Hr) as Hne.
  destruct (rows_polygon radius term edge); [congruence | reflexivity].
Qed.

(** C1, as the code behaves.  For every radius >= 1 the polygon is drawn at
    all three phases.  At phase 0.5 each row's polygon points are the left
    end of the disc's chord and the right edge of the image, so the black
    polygon spans every chord of the disc: the disc is dark at full moon.  At
    phase 0 they are the left end of the chord and the left edge of the
    image, at phase 1 the right end of the chord and the right edge, so the
    polygon lies beside the disc and the disc stays light at new moon; in
    the centre row the two points coincide. *)
Theorem draw_moon_new_and_full (x y radius : Z) (Hradius : 1 <= radius) :
  draw_moon x y radius 0
  = [ MaskEllipse 0 0 (radius * 2) (radius * 2);
      DiscEllipse 0 0 (radius * 2) (radius * 2) BLACK WHITE;
      Polygon (rows_polygon radius (chord_left radius) 0) BLACK;
      Paste (x - radius) (y - radius) ] /\
  draw_moon x y radius (1 / 2)
  = [ MaskEllipse 0 0 (radius * 2) (radius * 2);
      DiscEllipse 0 0 (radius * 2) (radius * 2) BLACK WHITE;
      Polygon (rows_polygon radius (chord_left radius) (IZR (radius * 2)))
              BLACK;
      Paste (x - radius) (y - radius) ] /\
  draw_moon x y radius 1
  = [ MaskEllipse 0 0 (radius * 2) (radius * 2);
      DiscEllipse 0 0 (radius * 2) (radius * 2) BLACK WHITE;
      Polygon (rows_polygon radius (chord_right radius) (IZR (radius * 2)))
              BLACK;
      Paste (x - radius) (y - radius) ] /\
  (forall i : Z, - radius <= i <= radius ->
     (0 <= chord_left radius i <= IZR radius)%R /\
     (IZR radius <= chord_right radius i <= IZR (radius * 2))%R) /\
  chord_left radius 0 = 0%R /\
  chord_right radius 0 = IZR (radius * 2) /\
  (0 < IZR radius < IZR (radius * 2))%R.
Proof.
  assert (Hr : 0 <= radius) by lia.
  split; [|split; [|split; [|split; [|split; [|split]]]]].
  - apply draw_moon_with_points; [exact Hr | apply terminator_row_phase_0].
  - apply draw_moon_with_points; [exact Hr | apply terminator_row_phase_half].
  - apply draw_moon_with_points; [exact Hr | apply terminator_row_phase_1].
  - intros i _. pose proof (moon_width_bounds radius i Hr) as [H0 H1].
    unfold chord_left, chord_right. rewrite mult_IZR. lra.
  - unfold chord_left. rewrite moon_width_centre by exact Hr. ring.
  - unfold chord_right. rewrite moon_width_centre by exact Hr.
    rewrite mult_IZR. ring.
  - rewrite mult_IZR. assert (1 <= IZR radius)%R by (apply IZR_le; exact Hradius).
    lra.
Qed.

Lemma draw_moon_new_and_full_witness :
  draw_moon 70 70 40 (1 / 2)
  = [ MaskEllipse 0 0 (40 * 2) (40 * 2);
      DiscEllipse 0 0 (40 * 2) (40 * 2) BLACK WHITE;
      Polygon (rows_polygon 40 (chord_left 40) (IZR (40 * 2))) BLACK;
      Paste (70 - 40) (70 - 40) ].
Proof.
  apply (draw_moon_new_and_full 70 70 40). lia.
Defined.

(** The caller at full moon: the phase source gives 14, the normalised
    phase is 0.5, and the polygon spans the disc. *)
Example full_moon_polygon :
  draw_moon_phase 14
  = [ MaskEllipse 0 0 80 80;
      DiscEllipse 0 0 80 80 BLACK WHITE;
      Polygon (rows_polygon 40 (chord_left 40) 80) BLACK;
      Paste 30 30 ].
Proof.
  unfold draw_moon_phase, normalized_phase.
  replace (14 / 28)%R with (1 / 2)%R by field.
  apply (draw_moon_with_points 70 70 40 (1 / 2) (chord_left 40) 80).
  - lia.
  - apply terminator_row_phase_half.
Qed.

(** * Further properties of the script *)

(** ** Sun times and band boundaries *)

(** The eight instants of [calculate_sun_times] are in day order exactly
    when sunrise and sunset are at least two hours apart, given that the
    library's dawn is not after sunrise and its dusk not before sunset: each
    golden hour lasts 3600 seconds, and the two must not cross. *)
Theorem sun_times_ordered_iff (s : AstralSun)
    (Hdawn : (astral_dawn s <= astral_sunrise s)%Q)
    (Hdusk : (astral_sunset s <= astral_dusk s)%Q) :
  let t := calculate_sun_times s in
  (golden_end t - golden_start t == 3600)%Q /\
  (evening_golden_end t - evening_golden_start t == 3600)%Q /\
  (((dawn t <= sunrise t)%Q /\ (sunrise t <= golden_start t)%Q /\
    (golden_start t <= golden_end t)%Q /\
    (golden_end t <= evening_golden_start t)%Q /\
    (evening_golden_start t <= evening_golden_end t)%Q /\
    (evening_golden_end t <= sunset t)%Q /\ (sunset t <= dusk t)%Q)
   <-> (astral_sunrise s + 7200 <= astral_sunset s)%Q).
Proof.
  simpl. split; [Lqa.lra|]. split; [Lqa.lra|].
  split.
  - intros (_ & _ & _ & H & _). Lqa.lra.
  - intros H. repeat split; Lqa.lra.
Qed.

Lemma sun_times_ordered_iff_witness :
  (golden_end (calculate_sun_times (astral sample_env))
   - golden_start (calculate_sun_times (astral sample_env)) == 3600)%Q.
Proof.
  apply (sun_times_ordered_iff (astral sample_env)).
  - vm_compute. discriminate.
  - vm_compute. discriminate.
Defined.

Lemma progress_of_mono (env : Env) (a b : Q) :
  (a <= b)%Q -> (progress_of env a <= progress_of env b)%Q.
Proof.
  intros H. unfold progress_of.
  apply Qmult_le_compat_r; [Lqa.lra | vm_compute; discriminate].
Qed.

Lemma x_of_progress_mono (g : Graph) (p q : Q) :
  0 <= graph_width g -> (p <= q)%Q ->
  x_of_progress g p <= x_of_progress g q.
Proof.
  intros Hw Hpq. unfold x_of_progress. apply py_int_mono.
  apply Qplus_le_compat; [apply Qle_refl|].
  apply Qmult_le_compat_r; [exact Hpq|].
  change 0%Q with (inject_Z 0). rewrite <- Zle_Qle. exact Hw.
Qed.

Lemma x_of_progress_at_0 (g : Graph) : x_of_progress g 0 = graph_x g.
Proof.
  unfold x_of_progress.
  rewrite (py_int_comp _ (inject_Z (graph_x g))) by ring.
  apply py_int_inject_Z.
Qed.

Lemma x_of_progress_at_1 (g : Graph) :
  x_of_progress g 1 = graph_x g + graph_width g.
Proof.
  unfold x_of_progress.
  rewrite (py_int_comp _ (inject_Z (graph_x g + graph_width g))).
  - apply py_int_inject_Z.
  - rewrite inject_Z_plus. ring.
Qed.

Lemma band_x_mono (env : Env) (e1 e2 : SunTimes -> Q) :
  0 <= display_width (display env) ->
  (e1 (calculate_sun_times (astral env))
   <= e2 (calculate_sun_times (astral env)))%Q ->
  band_x env e1 <= band_x env e2.
Proof.
  intros Hw H. unfold band_x. apply x_of_progress_mono; [exact Hw|].
  now apply progress_of_mono.
Qed.

(** When the sun events of the day are in order, lie within the local day
    and leave two hours between sunrise and sunset, the band boundaries are
    in left-to-right order inside the graph, and the colour left in every
    column of the graph is the one [band_color_at] names. *)
Theorem band_boundaries_in_order (env : Env)
    (Hwidth : 0 <= display_width (display env))
    (Hstart : (inject_Z (local_midnight env) <= astral_dawn (astral env))%Q)
    (Hdawn : (astral_dawn (astral env) <= astral_sunrise (astral env))%Q)
    (Hday : (astral_sunrise (astral env) + 7200
             <= astral_sunset (astral env))%Q)
    (Hdusk : (astral_sunset (astral env) <= astral_dusk (astral env))%Q)
    (Hend : (astral_dusk (astral env)
             <= inject_Z (local_midnight env) + 86400)%Q) :
  let g := graph_of (display env) in
  graph_x g <= band_x env dawn /\
  band_x env dawn <= band_x env sunrise /\
  band_x env sunrise <= band_x env golden_end /\
  band_x env golden_end <= band_x env evening_golden_start /\
  band_x env evening_golden_start <= band_x env sunset /\
  band_x env sunset <= band_x env dusk /\
  band_x env dusk <= graph_x g + graph_width g /\
  (forall (img : Canvas) (x y : Z),
     graph_x g <= x <= graph_x g + graph_width g ->
     y_top <= y <= y_bottom (display env) ->
     paint_rectangles (draw_backgrounds env) img x y = band_color_at env x).
Proof.
  intros g.
  assert (H1 : graph_x g <= band_x env dawn).
  { rewrite <- (x_of_progress_at_0 g). unfold band_x.
    apply x_of_progress_mono; [exact Hwidth|].
    unfold progress_of. simpl.
    apply Qle_shift_div_l; [reflexivity | Lqa.lra]. }
  assert (H7 : band_x env dusk <= graph_x g + graph_width g).
  { rewrite <- (x_of_progress_at_1 g). unfold band_x.
    apply x_of_progress_mono; [exact Hwidth|].
    unfold progress_of. simpl.
    apply Qle_shift_div_r; [reflexivity | Lqa.lra]. }
  assert (H2 : band_x env dawn <= band_x env sunrise)
    by (apply band_x_mono; [exact Hwidth | exact Hdawn]).
  assert (H3 : band_x env sunrise <= band_x env golden_end)
    by (apply band_x_mono; [exact Hwidth | simpl; Lqa.lra]).
  assert (H4 : band_x env golden_end <= band_x env evening_golden_start)
    by (apply band_x_mono; [exact Hwidth | simpl; Lqa.lra]).
  assert (H5 : band_x env evening_golden_start <= band_x env sunset)
    by (apply band_x_mono; [exact Hwidth | simpl; Lqa.lra]).
  assert (H6 : band_x env sunset <= band_x env dusk)
    by (apply band_x_mono; [exact Hwidth | exact Hdusk]).
  repeat (split; [assumption|]).
  intros img x y Hx Hy. now apply band_colors.
Qed.

Lemma band_boundaries_in_order_witness :
  band_x sample_env dawn <= band_x sample_env sunrise.
Proof.
  apply (band_boundaries_in_order sample_env); vm_compute; discriminate.
Defined.

(** ** Where the tide lines fall *)

Lemma py_int_0 : py_int 0 = 0.
Proof. reflexivity. Qed.

Lemma graph_height_nonneg (d : Display) :
  0 <= display_height d -> 0 <= graph_height (graph_of d).
Proof.
  intros H. simpl. rewrite <- py_int_0. apply py_int_mono.
  assert (0 <= inject_Z (display_height d))%Q
    by (change 0%Q with (inject_Z 0); now rewrite <- Zle_Qle).
  Lqa.lra.
Qed.

Lemma chart_domain_bounds (predictions : list Prediction) (pred : Prediction) :
  In pred predictions ->
  (chart_min_tide predictions + (1 # 2) <= pred_v pred)%Q /\
  (pred_v pred <= chart_min_tide predictions + chart_tide_range predictions)%Q /\
  ((forall q, In q predictions -> (pred_v q <= pred_v pred)%Q) ->
   (pred_v pred - chart_min_tide predictions
    == chart_tide_range predictions)%Q).
Proof.
  intros Hin. unfold chart_min_tide, chart_tide_range.
  destruct predictions as [| p ps]; [destruct Hin|].
  assert (Hv : In (pred_v pred) (map pred_v (p :: ps))) by now apply in_map.
  simpl map in *.
  pose proof (py_min_lower _ _ _ Hv) as Hlo.
  pose proof (py_max_upper _ _ _ Hv) as Hhi.
  split; [Lqa.lra|]. split; [Lqa.lra|].
  intros Hmax.
  pose proof (py_max_In (map pred_v ps) (pred_v p)) as Hm.
  change (pred_v p :: map pred_v ps) with (map pred_v (p :: ps)) in Hm.
  apply in_map_iff in Hm. destruct Hm as [q [Eq Hq]].
  specialize (Hmax q Hq). rewrite Eq in Hmax. Lqa.lra.
Qed.

(** Every tide line of a chart stays inside the graph: its x lies between
    the left and right edge, its top between the top and bottom edge, and a
    sample of greatest height reaches the top edge exactly.  The display
    width and height must not be negative. *)
Theorem tide_lines_within_graph (env : Env) (predictions : list Prediction)
    (i : nat) (pred : Prediction)
    (Hn : (2 <= length predictions)%nat)
    (Hpred : nth_error predictions i = Some pred)
    (Hwidth : 0 <= display_width (display env))
    (Hheight : 0 <= display_height (display env)) :
  let g := graph_of (display env) in
  exists (x y : Z),
    nth_error (chart_lines env predictions) i
    = Some (Line x (graph_y g + graph_height g) x y
                 (line_color_of env pred) (line_width_of env pred)
            :: extremum_labels env predictions i pred x y) /\
    graph_x g <= x <= graph_x g + graph_width g /\
    graph_y g <= y <= graph_y g + graph_height g /\
    ((forall q, In q predictions -> (pred_v q <= pred_v pred)%Q) ->
     y = graph_y g).
Proof.
  intros g.
  assert (Hi : (i < length predictions)%nat)
    by (apply nth_error_Some; congruence).
  assert (Hin : In pred predictions) by (eapply nth_error_In; eauto).
  destruct (chart_domain_bounds predictions pred Hin) as (Hlo & Hhi & Hmax).
  assert (Hne : predictions <> [])
    by (destruct predictions; simpl in *; [lia | congruence]).
  destruct (chart_tide_range_nonzero predictions Hne) as [Hr _].
  set (min_tide := chart_min_tide predictions) in *.
  set (tide_range := chart_tide_range predictions) in *.
  assert (Hgh : 0 <= graph_height g) by now apply graph_height_nonneg.
  assert (HghQ : (0 <= inject_Z (graph_height g))%Q)
    by (change 0%Q with (inject_Z 0); now rewrite <- Zle_Qle).
  set (ratio := ((pred_v pred - min_tide) / tide_range)%Q).
  assert (Hratio : (0 <= ratio)%Q /\ (ratio <= 1)%Q).
  { unfold ratio. split.
    - apply Qle_shift_div_l; Lqa.lra.
    - apply Qle_shift_div_r; Lqa.lra. }
  do 2 eexists. split; [|split; [|split]].
  - unfold chart_lines. rewrite nth_error_map.
    rewrite (nth_error_enumerate _ _ _ Hpred). simpl. unfold plot_ops.
    reflexivity.
  - fold g. set (W := graph_width g) in *.
    assert (HW : 0 <= W) by exact Hwidth.
    assert (0 <= Z.of_nat i * W / (Z.of_nat (length predictions) - 1) <= W).
    { split.
      - apply Z.div_pos; [apply Z.mul_nonneg_nonneg; lia | lia].
      - apply Z.div_le_upper_bound; [lia|]. apply Z.mul_le_mono_nonneg_r; lia. }
    lia.
  - fold g min_tide tide_range ratio.
    assert (0 <= py_int (ratio * inject_Z (graph_height g))%Q <= graph_height g).
    { split.
      - rewrite <- py_int_0. apply py_int_mono.
        apply Qmult_le_0_compat; tauto.
      - rewrite <- (py_int_inject_Z (graph_height g)) at 2.
        apply py_int_mono.
        setoid_replace (inject_Z (graph_height g))
          with (1 * inject_Z (graph_height g))%Q at 2 by ring.
        apply Qmult_le_compat_r; tauto. }
    lia.
  - intros Hall. fold g min_tide tide_range ratio.
    assert (E : (ratio == 1)%Q).
    { unfold ratio. rewrite (Hmax Hall). field. Lqa.lra. }
    rewrite (py_int_comp _ (inject_Z (graph_height g)))
      by (rewrite E; ring).
    rewrite py_int_inject_Z. lia.
Qed.

Lemma tide_lines_within_graph_witness :
  exists (x y : Z),
    nth_error (chart_lines sample_env four_samples) 2
    = Some (Line x 448 x y BLACK 2
            :: extremum_labels sample_env four_samples 2
                 {| pred_t := 79200; pred_v := 3 |} x y) /\
    0 <= x <= 800 /\ 208 <= y <= 448.
Proof.
  destruct (tide_lines_within_graph sample_env four_samples 2
              {| pred_t := 79200; pred_v := 3 |}) as (x & y & H1 & H2 & H3 & _).
  - simpl. lia.
  - reflexivity.
  - vm_compute. discriminate.
  - vm_compute. discriminate.
  - exists x, y. split; [exact H1 | split; [exact H2 | exact H3]].
Defined.

(** The time zone is a whole number of hours, so the minute of the hour, and
    with it the width of a tide line, does not depend on it; for a timestamp
    on a whole minute the line is 2 pixels wide exactly on the whole hours. *)
Theorem line_width_independent_of_tz (env : Env) (pred : Prediction) :
  local_minute env (pred_t pred) = (pred_t pred / 60) mod 60 /\
  line_width_of env pred
  = (if (pred_t pred / 60) mod 60 =? 0 then 2 else 1) /\
  (pred_t pred mod 60 = 0 ->
   (line_width_of env pred = 2 <-> pred_t pred mod 3600 = 0)).
Proof.
  assert (E : local_minute env (pred_t pred) = (pred_t pred / 60) mod 60).
  { unfold local_minute.
    replace (tz_offset env * 3600) with (tz_offset env * 60 * 60) by ring.
    rewrite Z.div_add by lia. apply Z.mod_add. lia. }
  split; [exact E|]. split.
  - unfold line_width_of. now rewrite E.
  - intros Hmin. unfold line_width_of. rewrite E.
    set (t := pred_t pred) in *.
    pose proof (Z.div_mod t 60 ltac:(lia)) as D1.
    pose proof (Z.div_mod (t / 60) 60 ltac:(lia)) as D2.
    pose proof (Z.mod_pos_bound (t / 60) 60 ltac:(lia)) as B2.
    pose proof (Z.div_mod t 3600 ltac:(lia)) as D3.
    pose proof (Z.mod_pos_bound t 3600 ltac:(lia)) as B3.
    destruct (Z.eqb_spec ((t / 60) mod 60) 0) as [Ez | Nz]; split; intros H;
      try reflexivity; try discriminate; lia.
Qed.

Lemma line_width_independent_of_tz_witness :
  line_width_of sample_env {| pred_t := 57600; pred_v := 2 |} = 2
  <-> 57600 mod 3600 = 0.
Proof.
  apply (line_width_independent_of_tz sample_env
           {| pred_t := 57600; pred_v := 2 |}).
  reflexivity.
Defined.

(** ** More on extrema *)

Lemma Qlt_bool_asym (a b : Q) : Qlt_bool a b = true -> Qlt_bool b a = false.
Proof.
  intros H. apply Qlt_bool_iff in H.
  destruct (Qlt_bool b a) eqn:E; [|reflexivity].
  apply Qlt_bool_iff in E. Lqa.lra.
Qed.

(** No sample is flagged both as a peak and as a trough, and two adjacent
    samples are never both peaks nor both troughs: labelled extrema
    alternate in kind along the series. *)
Theorem extrema_alternate (predictions : list Prediction) (i : nat)
    (pred next : Prediction)
    (Hpred : nth_error predictions i = Some pred)
    (Hnext : nth_error predictions (i + 1) = Some next) :
  peak_at predictions i pred && trough_at predictions i pred = false /\
  peak_at predictions i pred && peak_at predictions (i + 1) next = false /\
  trough_at predictions i pred && trough_at predictions (i + 1) next = false.
Proof.
  assert (Hn : next_val_at predictions i pred = pred_v next)
    by (unfold next_val_at; now rewrite (nth_error_nth _ _ _ Hnext)).
  assert (Hp : prev_val_at predictions (i + 1) next = pred_v pred).
  { unfold prev_val_at. replace (i + 1 - 1)%nat with i by lia.
    now rewrite (nth_error_nth _ _ _ Hpred). }
  unfold peak_at, trough_at, is_peak, is_trough. rewrite Hn, Hp.
  destruct (is_interior predictions i), (is_interior predictions (i + 1));
    simpl; repeat split; try reflexivity;
    repeat match goal with
           | |- context [Qlt_bool ?a ?b] =>
               let E := fresh "E" in
               destruct (Qlt_bool a b) eqn:E; simpl;
               try reflexivity;
               try (apply Qlt_bool_asym in E; congruence)
           end.
Qed.

Lemma extrema_alternate_witness :
  peak_at scenario_series 1 {| pred_t := 50400; pred_v := 2 |}
  && peak_at scenario_series (1 + 1) {| pred_t := 68400; pred_v := 3 # 2 |}
  = false.
Proof.
  apply (extrema_alternate scenario_series 1
           {| pred_t := 50400; pred_v := 2 |}
           {| pred_t := 68400; pred_v := 3 # 2 |}); reflexivity.
Defined.

Lemma select_indexed_none {A : Type} (P : nat -> A -> bool) (l : list A) :
  forall k,
    (forall i a, nth_error l i = Some a -> P (k + i)%nat a = false) ->
    select_indexed P k l = [].
Proof.
  induction l as [| b l IH]; intros k H.
  - reflexivity.
  - rewrite select_indexed_cons.
    assert (E : P k b = false)
      by (rewrite <- (Nat.add_0_r k); apply H; reflexivity).
    rewrite E. simpl. apply IH.
    intros i a Hi. replace (S k + i)%nat with (k + S i)%nat by lia.
    now apply H.
Qed.

Lemma extremum_at_interior_values (predictions : list Prediction) (i : nat)
    (pred : Prediction) :
  nth_error predictions i = Some pred ->
  extremum_at predictions i pred = true ->
  exists prev next,
    (0 < i)%nat /\
    nth_error predictions (i - 1) = Some prev /\
    nth_error predictions (i + 1) = Some next /\
    is_extremum (pred_v prev) (pred_v pred) (pred_v next) = true.
Proof.
  intros Hpred H. unfold extremum_at in H.
  destruct (is_interior predictions i) eqn:Hint; [|discriminate].
  apply is_interior_iff in Hint. destruct Hint as [H0 H1].
  destruct (nth_error predictions (i - 1)) as [prev |] eqn:Ep;
    [| apply nth_error_None in Ep; lia].
  destruct (nth_error predictions (i + 1)) as [next |] eqn:En;
    [| apply nth_error_None in En; lia].
  exists prev, next. repeat split; try assumption.
  unfold prev_val_at, next_val_at in H.
  now rewrite (nth_error_nth _ _ _ Ep), (nth_error_nth _ _ _ En) in H.
Qed.

(** A series with fewer than three samples, or one whose heights never
    decrease, or one whose heights never increase (a constant series is
    both), has no extremum: nothing is flagged and no label is drawn for
    any sample.  In particular a flat top of equal heights is not
    labelled. *)
Theorem no_extremum_without_turn (predictions : list Prediction)
    (Hflat : (length predictions < 3)%nat \/
             (forall i a b, nth_error predictions i = Some a ->
                            nth_error predictions (i + 1) = Some b ->
                            (pred_v a <= pred_v b)%Q) \/
             (forall i a b, nth_error predictions i = Some a ->
                            nth_error predictions (i + 1) = Some b ->
                            (pred_v b <= pred_v a)%Q)) :
  (forall i pred, nth_error predictions i = Some pred ->
                  extremum_at predictions i pred = false) /\
  extrema predictions = [] /\
  (forall env i pred x y,
     nth_error predictions i = Some pred ->
     extremum_labels env predictions i pred x y = []).
Proof.
  assert (H : forall i pred, nth_error predictions i = Some pred ->
                             extremum_at predictions i pred = false).
  { intros i pred Hpred.
    destruct (extremum_at predictions i pred) eqn:E; [|reflexivity].
    exfalso.
    destruct (extremum_at_interior_values _ _ _ Hpred E)
      as (prev & next & Hi & Hp & Hn & Hex).
    destruct Hflat as [Hlen | [Hup | Hdown]].
    - assert ((i + 1 < length predictions)%nat)
        by (apply nth_error_Some; congruence). lia.
    - pose proof (Hup (i - 1)%nat prev pred Hp) as U1.
      replace (i - 1 + 1)%nat with i in U1 by lia. specialize (U1 Hpred).
      pose proof (Hup i pred next Hpred Hn) as U2.
      unfold is_extremum in Hex. apply orb_true_iff in Hex.
      rewrite is_peak_iff, is_trough_iff in Hex.
      destruct Hex as [[_ Hx] | [Hx _]]; Lqa.lra.
    - pose proof (Hdown (i - 1)%nat prev pred Hp) as U1.
      replace (i - 1 + 1)%nat with i in U1 by lia. specialize (U1 Hpred).
      pose proof (Hdown i pred next Hpred Hn) as U2.
      unfold is_extremum in Hex. apply orb_true_iff in Hex.
      rewrite is_peak_iff, is_trough_iff in Hex.
      destruct Hex as [[Hx _] | [_ Hx]]; Lqa.lra. }
  split; [exact H|]. split.
  - unfold extrema. apply select_indexed_none. intros i a Hi. simpl.
    now apply H.
  - intros env i pred x y Hpred. unfold extremum_labels.
    now rewrite (H i pred Hpred).
Qed.

Lemma no_extremum_without_turn_witness :
  extrema [ {| pred_t := 32400; pred_v := 1 |};
            {| pred_t := 50400; pred_v := 2 |};
            {| pred_t := 68400; pred_v := 2 |};
            {| pred_t := 86400; pred_v := 3 |} ] = [].
Proof.
  apply (no_extremum_without_turn
           [ {| pred_t := 32400; pred_v := 1 |};
             {| pred_t := 50400; pred_v := 2 |};
             {| pred_t := 68400; pred_v := 2 |};
             {| pred_t := 86400; pred_v := 3 |} ]).
  right. left. intros i a b Ha Hb.
  destruct i as [| [| [| [| i]]]]; simpl in Ha, Hb;
    try discriminate; try (destruct i; discriminate);
    injection Ha as <-; injection Hb as <-; vm_compute; discriminate.
Defined.

(** With dawn not after dusk every progress value is night or daylight, and
    it is both exactly at dawn and at dusk: a sample exactly at dawn or dusk
    gets a white line and, if it is an extremum, is labelled as well, while a
    sample with a black line is always within the labelled hours. *)
Theorem night_and_daylight_cover (dawn_progress dusk_progress progress : Q)
    (Horder : (dawn_progress <= dusk_progress)%Q) :
  is_night dawn_progress dusk_progress progress
  || in_daylight dawn_progress dusk_progress progress = true /\
  (is_night dawn_progress dusk_progress progress
   && in_daylight dawn_progress dusk_progress progress = true
   <-> (progress == dawn_progress)%Q \/ (progress == dusk_progress)%Q) /\
  (is_night dawn_progress dusk_progress progress = false ->
   in_daylight dawn_progress dusk_progress progress = true).
Proof.
  assert (Hcases : is_night dawn_progress dusk_progress progress = false ->
                   in_daylight dawn_progress dusk_progress progress = true).
  { intros Hn. apply in_daylight_iff.
    destruct (Qlt_le_dec dawn_progress progress) as [H1 | H1];
      destruct (Qlt_le_dec progress dusk_progress) as [H2 | H2].
    - split; Lqa.lra.
    - assert (N : is_night dawn_progress dusk_progress progress = true)
        by (apply is_night_iff; now right). congruence.
    - assert (N : is_night dawn_progress dusk_progress progress = true)
        by (apply is_night_iff; now left). congruence.
    - assert (N : is_night dawn_progress dusk_progress progress = true)
        by (apply is_night_iff; now left). congruence. }
  split; [|split; [|exact Hcases]].
  - destruct (is_night dawn_progress dusk_progress progress) eqn:N;
      [reflexivity | now apply Hcases].
  - rewrite andb_true_iff, is_night_iff, in_daylight_iff. split.
    + intros [[H | H] [H1 H2]]; [left | right]; Lqa.lra.
    + intros [H | H]; rewrite H; split;
        try (left; apply Qle_refl); try (right; apply Qle_refl);
        split; try apply Qle_refl; assumption.
Qed.

Lemma night_and_daylight_cover_witness :
  is_night (1 # 4) (3 # 4) (1 # 4) && in_daylight (1 # 4) (3 # 4) (1 # 4) = true
  <-> (1 # 4 == 1 # 4)%Q \/ (1 # 4 == 3 # 4)%Q.
Proof.
  apply (night_and_daylight_cover (1 # 4) (3 # 4) (1 # 4)).
  vm_compute. discriminate.
Defined.

(** ** The operations of one chart *)

Lemma nth_error_seq_plus (len start k : nat) :
  (k < len)%nat -> nth_error (seq start len) k = Some (start + k)%nat.
Proof.
  revert start k. induction len as [| len IH]; intros start k Hk; [lia|].
  destruct k as [| k]; simpl.
  - now rewrite Nat.add_0_r.
  - rewrite IH by lia. f_equal. lia.
Qed.

Lemma nth_error_range (lo hi : Z) (k : nat) :
  Z.of_nat k < hi - lo ->
  nth_error (range lo hi) k = Some (lo + Z.of_nat k).
Proof.
  intros Hk. unfold range.
  apply map_nth_error with (f := fun k => lo + Z.of_nat k).
  apply (nth_error_seq_plus _ 0). lia.
Qed.

Lemma length_range (lo hi : Z) : length (range lo hi) = Z.to_nat (hi - lo).
Proof. unfold range. now rewrite length_map, length_seq. Qed.

(** The hour labels are 23 texts, for the hours 1 to 23 in order, all on
    the row 16 pixels below the graph; on a display of non-negative width
    the label of hour h sits at column floor(h * width / 24); it is white
    exactly when h/24 is at or before dawn-progress or at or after
    dusk-progress; and in 12-hour form the number shown lies in 1..12 and
    is congruent to h modulo 12. *)
Theorem hour_labels_layout (env : Env) (hour : Z)
    (Hhour : 1 <= hour <= 23)
    (Hwidth : 0 <= display_width (display env)) :
  let g := graph_of (display env) in
  let dawn_progress := progress_of env (astral_dawn (astral env)) in
  let dusk_progress := progress_of env (astral_dusk (astral env)) in
  length (draw_hour_labels env) = 23%nat /\
  exists (shown : Z) (color : PaletteColor),
    nth_error (draw_hour_labels env) (Z.to_nat (hour - 1))
    = Some (Text (hour * display_width (display env) / 24)
                 (graph_y g + graph_height g + 16)
                 (HourLabel shown) color) /\
    (color = WHITE
     <-> (inject_Z hour / 24 <= dawn_progress)%Q \/
         (dusk_progress <= inject_Z hour / 24)%Q) /\
    (color = WHITE \/ color = BLACK) /\
    (timeFormat env = H24 -> shown = hour) /\
    (timeFormat env = H12 ->
     1 <= shown <= 12 /\ shown mod 12 = hour mod 12).
Proof.
  intros g dawn_progress dusk_progress.
  split.
  { unfold draw_hour_labels. now rewrite length_map, length_range. }
  assert (Hx : x_of_progress g (inject_Z hour / 24)
               = hour * display_width (display env) / 24).
  { unfold x_of_progress. rewrite py_int_nonneg_floor.
    - rewrite Qfloor_plus_Z. simpl graph_x.
      change 24%Q with (inject_Z 24).
      rewrite <- floordiv_as_Qfloor by lia. reflexivity.
    - simpl graph_x. simpl graph_width.
      assert (0 <= inject_Z hour)%Q
        by (change 0%Q with (inject_Z 0); rewrite <- Zle_Qle; lia).
      assert (0 <= inject_Z (display_width (display env)))%Q
        by (change 0%Q with (inject_Z 0); now rewrite <- Zle_Qle).
      assert (0 <= inject_Z hour / 24 * inject_Z (display_width (display env)))%Q.
      { apply Qmult_le_0_compat; [|assumption].
        apply Qle_shift_div_l; [reflexivity | Lqa.lra]. }
      change (inject_Z 0) with 0%Q. Lqa.lra. }
  assert (Hnth : nth_error (range 1 24) (Z.to_nat (hour - 1)) = Some hour).
  { rewrite nth_error_range by lia. f_equal. lia. }
  set (shown := match timeFormat env with
                | H24 => hour
                | H12 => if hour mod 12 =? 0 then 12 else hour mod 12
                end).
  exists shown.
  exists (if is_night dawn_progress dusk_progress (inject_Z hour / 24)
          then WHITE else BLACK).
  split; [|split; [|split; [|split]]].
  - unfold draw_hour_labels.
    rewrite (map_nth_error _ _ _ Hnth). fold g. rewrite Hx.
    unfold hour_label, shown, label_padding. simpl.
    fold dawn_progress dusk_progress.
    destruct (timeFormat env); reflexivity.
  - destruct (is_night dawn_progress dusk_progress (inject_Z hour / 24)) eqn:N.
    + apply is_night_iff in N. tauto.
    + split; [discriminate|]. intros H. apply is_night_iff in H. congruence.
  - destruct (is_night dawn_progress dusk_progress (inject_Z hour / 24));
      [now left | now right].
  - intros E. unfold shown. now rewrite E.
  - intros E. unfold shown. rewrite E.
    pose proof (Z.mod_pos_bound hour 12 ltac:(lia)).
    destruct (Z.eqb_spec (hour mod 12) 0) as [Ez | Nz].
    + split; [lia|]. now rewrite Ez.
    + split; [lia|]. apply Z.mod_mod. lia.
Qed.

Lemma hour_labels_layout_witness :
  length (draw_hour_labels sample_env) = 23%nat.
Proof.
  apply (hour_labels_layout sample_env 13).
  - lia.
  - vm_compute. discriminate.
Defined.






(** ** The local-day filter and the background fill *)

Lemma in_local_day_iff (env : Env) (p : Prediction) :
  in_local_day env p = true
  <-> local_midnight env <= pred_t p < local_midnight env + 86400.
Proof.
  unfold in_local_day. rewrite andb_true_iff, Z.leb_le, Z.ltb_lt. tauto.
Qed.

Lemma filter_none {A : Type} (f : A -> bool) (l : list A) :
  (forall a, In a l -> f a = false) -> filter f l = [].
Proof.
  induction l as [| a l IH]; intros H; [reflexivity|]. simpl.
  rewrite (H a) by now left. apply IH. intros b Hb. apply H. now right.
Qed.

(** Only the samples of the local day are drawn.  The response covers 48
    hours; samples before local midnight or from the next midnight on,
    wherever they stand in the response, change nothing of what the tide
    step draws, and every sample that is kept has a progress in [0, 1). *)
Theorem samples_outside_day_ignored (env : Env)
    (before inside after : list Prediction)
    (Hbefore : forall p, In p before -> in_local_day env p = false)
    (Hafter : forall p, In p after -> in_local_day env p = false) :
  draw_tide_information env
    (Some {| json_predictions := Some (before ++ inside ++ after) |})
  = draw_tide_information env (Some {| json_predictions := Some inside |}) /\
  draw_tide_information env
    (Some {| json_predictions := Some (filter (in_local_day env) inside) |})
  = draw_tide_information env (Some {| json_predictions := Some inside |}) /\
  (forall p, In p (filter (in_local_day env) inside) ->
     In p inside /\
     (0 <= progress_of env (inject_Z (pred_t p)))%Q /\
     (progress_of env (inject_Z (pred_t p)) < 1)%Q).
Proof.
  split; [|split].
  - unfold draw_tide_information.
    rewrite !filter_app, (filter_none _ before Hbefore),
      (filter_none _ after Hafter), app_nil_r. reflexivity.
  - unfold draw_tide_information.
    assert (E : filter (in_local_day env) (filter (in_local_day env) inside)
                = filter (in_local_day env) inside).
    { induction inside as [| a l IH]; [reflexivity|]. simpl.
      destruct (in_local_day env a) eqn:Ea; simpl; rewrite ?Ea, IH; reflexivity. }
    now rewrite E.
  - intros p Hp. apply filter_In in Hp. destruct Hp as [Hin Hday].
    apply in_local_day_iff in Hday. split; [exact Hin|].
    unfold progress_of.
    assert (H0 : (inject_Z (local_midnight env) <= inject_Z (pred_t p))%Q)
      by (rewrite <- Zle_Qle; lia).
    assert (H1 : (inject_Z (pred_t p) < inject_Z (local_midnight env) + 86400)%Q).
    { change 86400%Q with (inject_Z 86400). rewrite <- inject_Z_plus.
      rewrite <- Zlt_Qlt. lia. }
    split.
    + apply Qle_shift_div_l; [reflexivity | Lqa.lra].
    + apply Qlt_shift_div_r; [reflexivity | Lqa.lra].
Qed.

Lemma samples_outside_day_ignored_witness :
  draw_tide_information sample_env
    (Some {| json_predictions :=
               Some ([ {| pred_t := 0; pred_v := 9 |} ] ++ four_samples
                     ++ [ {| pred_t := 200000; pred_v := 7 |} ]) |})
  = draw_tide_information sample_env
      (Some {| json_predictions := Some four_samples |}).
Proof.
  apply (samples_outside_day_ignored sample_env
           [ {| pred_t := 0; pred_v := 9 |} ] four_samples
           [ {| pred_t := 200000; pred_v := 7 |} ]).
  - intros p [<- | []]. reflexivity.
  - intros p [<- | []]. reflexivity.
Defined.

Lemma putpixel_row_elsewhere (xs : list Z) (img : Canvas) (y x' y' : Z) :
  ~ (y' = y /\ In x' xs) ->
  fold_left (fun img x => putpixel img x y WHITE) xs img x' y' = img x' y'.
Proof.
  revert img. induction xs as [| a xs IH]; intros img H; simpl; [reflexivity|].
  rewrite IH by (intros [Hy Hin]; apply H; split; [exact Hy | now right]).
  unfold putpixel.
  destruct (Z.eqb_spec x' a) as [Ex | Nx], (Z.eqb_spec y' y) as [Ey | Ny];
    simpl; try reflexivity.
  exfalso. apply H. split; [exact Ey | left; now symmetry].
Qed.

Lemma putpixel_rows_elsewhere (xs ys : list Z) (img : Canvas) (x y : Z) :
  ~ (In x xs /\ In y ys) ->
  fold_left (fun img y0 =>
               fold_left (fun img x0 => putpixel img x0 y0 WHITE) xs img)
            ys img x y = img x y.
Proof.
  revert img. induction ys as [| b ys IH]; intros img H; simpl; [reflexivity|].
  rewrite IH by (intros [Hx Hy]; apply H; split; [exact Hx | now right]).
  apply putpixel_row_elsewhere. intros [Ey Hx]. apply H.
  split; [exact Hx | left; now symmetry].
Qed.

(** The background loop sets exactly the pixels of the display: a pixel
    with 0 <= x < width and 0 <= y < height becomes white whatever it was,
    and every other pixel keeps its colour; running the loop a second time
    changes nothing. *)
Theorem draw_background_pixels (d : Display) (img : Canvas) (x y : Z) :
  draw_background d img x y
  = (if (0 <=? x) && (x <? display_width d)
        && (0 <=? y) && (y <? display_height d)
     then WHITE else img x y) /\
  draw_background d (draw_background d img) x y = draw_background d img x y.
Proof.
  assert (G : forall img0,
             draw_background d img0 x y
             = if (0 <=? x) && (x <? display_width d)
                  && (0 <=? y) && (y <? display_height d)
               then WHITE else img0 x y).
  { intros img0.
    destruct (Z.leb_spec 0 x), (Z.ltb_spec x (display_width d)),
             (Z.leb_spec 0 y), (Z.ltb_spec y (display_height d)); simpl;
      try (apply draw_background_white; lia);
      unfold draw_background; apply putpixel_rows_elsewhere;
      rewrite !In_range; unfold y_top, y_bottom; lia. }
  split; [apply G|].
  rewrite (G (draw_background d img)), (G img).
  destruct ((0 <=? x) && (x <? display_width d)
            && (0 <=? y) && (y <? display_height d)); reflexivity.
Qed.

(** ** More on the moon *)

Lemma insert_by_y_perm (p : Point) (l : list Point) :
  Permutation (insert_by_y p l) (p :: l).
Proof.
  induction l as [| q l IH]; simpl; [apply Permutation_refl|].
  destruct (Rle_bool (snd p) (snd q)); [apply Permutation_refl|].
  apply Permutation_trans with (q :: p :: l);
    [now apply perm_skip | apply perm_swap].
Qed.

Lemma sort_by_y_perm (l : list Point) : Permutation (sort_by_y l) l.
Proof.
  induction l as [| p l IH]; simpl; [apply Permutation_refl|].
  fold (sort_by_y l).
  apply Permutation_trans with (p :: sort_by_y l);
    [apply insert_by_y_perm | now apply perm_skip].
Qed.

Lemma insert_by_y_sorted (p : Point) (l : list Point) :
  StronglySorted le_y l -> StronglySorted le_y (insert_by_y p l).
Proof.
  induction 1 as [| q l Hs IH Hall]; simpl.
  - constructor; constructor.
  - destruct (Rle_bool (snd p) (snd q)) eqn:E.
    + apply Rle_bool_iff in E. constructor; [now constructor|].
      constructor; [exact E|].
      apply Forall_forall. intros a Ha. rewrite Forall_forall in Hall.
      unfold le_y in *. apply Rle_trans with (snd q); [exact E | now apply Hall].
    + constructor; [exact IH|].
      apply Forall_forall. intros a Ha.
      apply (Permutation_in _ (insert_by_y_perm p l)) in Ha.
      destruct Ha as [<- | Ha].
      * unfold le_y. destruct (Rle_dec (snd p) (snd q)) as [Hle | Hnle].
        -- apply Rle_bool_iff in Hle. congruence.
        -- lra.
      * rewrite Forall_forall in Hall. now apply Hall.
Qed.

(** The sort of the terminator points: whatever the list, its result is a
    permutation of it in non-decreasing [y]; and for every radius and phase
    the points of the loop are already in that order, so the sort changes
    nothing and the polygon visits, row after row, the terminator point and
    then the edge point. *)
Theorem terminator_sort_keeps_loop_order :
  (forall l : list Point,
     Permutation (sort_by_y l) l /\ StronglySorted le_y (sort_by_y l)) /\
  (forall (radius : Z) (phase : R),
     sort_by_y (terminator_points radius phase)
     = terminator_points radius phase).
Proof.
  split.
  - intros l. split; [apply sort_by_y_perm|].
    induction l as [| p l IH]; simpl; [constructor|].
    now apply insert_by_y_sorted.
  - apply sort_terminator_points.
Qed.

Lemma terminator_row_shape (radius : Z) (phase : R) (i : Z) :
  (0 <= phase <= 1)%R -> 0 <= radius ->
  exists (tx edge : R),
    terminator_row radius phase i
    = [ (tx, IZR (radius + i)); (edge, IZR (radius + i)) ] /\
    (chord_left radius i <= tx <= chord_right radius i)%R /\
    (edge = 0%R \/ edge = IZR (radius * 2)).
Proof.
  intros Hp Hr. unfold terminator_row, chord_left, chord_right.
  pose proof (moon_width_bounds radius i Hr) as [Hw0 Hw1].
  set (w := moon_width radius i) in *.
  pose proof (COS_bound (phase * 2 * PI)) as [Hc0 Hc1].
  set (c := cos (phase * 2 * PI)) in *.
  destruct (Rlt_dec phase (1 / 2)) as [Hlt | Hge].
  - assert (G1 : Rle_bool 0 phase = true) by (apply Rle_bool_iff; lra).
    assert (G2 : Rlt_bool phase (1 / 2) = true) by (now apply Rlt_bool_iff).
    rewrite G1, G2. simpl. do 2 eexists. split; [reflexivity|].
    split; [nra | now left].
  - rewrite (Rlt_bool_false phase (1 / 2)) by lra.
    assert (G1 : Rle_bool (1 / 2) phase = true) by (apply Rle_bool_iff; lra).
    assert (G2 : Rle_bool phase 1 = true) by (apply Rle_bool_iff; lra).
    rewrite G1, G2, andb_false_r. simpl. do 2 eexists. split; [reflexivity|].
    split; [nra | now right].
Qed.

Lemma length_flat_map_pairs {A B : Type} (f : A -> list B) (l : list A) :
  (forall a, length (f a) = 2%nat) ->
  length (flat_map f l) = (2 * length l)%nat.
Proof.
  intros H. induction l as [| a l IH]; [reflexivity|]. simpl.
  rewrite length_app, H, IH. lia.
Qed.

(** For a phase in [0, 1] and a radius >= 0 the polygon is always drawn,
    with two points for each of the 2*radius + 1 rows, and every point lies
    inside the temporary image: 0 <= x <= 2*radius and 0 <= y <= 2*radius. *)
Theorem moon_polygon_in_image (x y radius : Z) (phase : R)
    (Hradius : 0 <= radius) (Hphase : (0 <= phase <= 1)%R) :
  let points := terminator_points radius phase in
  draw_moon x y radius phase
  = [ MaskEllipse 0 0 (radius * 2) (radius * 2);
      DiscEllipse 0 0 (radius * 2) (radius * 2) BLACK WHITE;
      Polygon points BLACK;
      Paste (x - radius) (y - radius) ] /\
  length points = Z.to_nat (2 * (2 * radius + 1)) /\
  (forall px py : R,
     In (px, py) points ->
     (0 <= px <= IZR (radius * 2))%R /\ (0 <= py <= IZR (radius * 2))%R).
Proof.
  intros points.
  assert (Hlen : length points = Z.to_nat (2 * (2 * radius + 1))).
  { unfold points, terminator_points.
    rewrite length_flat_map_pairs.
    - rewrite length_range. lia.
    - intros i.
      destruct (terminator_row_shape radius phase i Hphase Hradius)
        as (tx & edge & E & _). now rewrite E. }
  split; [|split; [exact Hlen|]].
  - unfold draw_moon. rewrite sort_terminator_points. fold points.
    destruct points; [cbn [length] in Hlen; lia | reflexivity].
  - intros px py Hin. unfold points, terminator_points in Hin.
    apply in_flat_map in Hin. destruct Hin as [i [Hi Hrow]].
    apply In_range in Hi.
    destruct (terminator_row_shape radius phase i Hphase Hradius)
      as (tx & edge & E & Htx & Hedge).
    rewrite E in Hrow.
    pose proof (moon_width_bounds radius i Hradius) as [Hw0 Hw1].
    unfold chord_left, chord_right in Htx.
    assert (Hy : (0 <= IZR (radius + i) <= IZR (radius * 2))%R)
      by (split; apply IZR_le; lia).
    assert (H2r : IZR (radius * 2) = (IZR radius * 2)%R) by apply mult_IZR.
    assert (Hr0 : (0 <= IZR radius)%R) by (apply IZR_le; exact Hradius).
    destruct Hrow as [Epx | [Epx | []]]; injection Epx as <- <-.
    + split; [lra | exact Hy].
    + split; [destruct Hedge as [-> | ->]; lra | exact Hy].
Qed.

Lemma moon_polygon_in_image_witness :
  length (terminator_points 40 (1 / 4)) = Z.to_nat (2 * (2 * 40 + 1)).
Proof.
  apply (moon_polygon_in_image 70 70 40 (1 / 4)).
  - lia.
  - lra.
Defined.

Lemma cos_mirror_phase (phase : R) :
  cos ((1 - phase) * 2 * PI) = cos (phase * 2 * PI).
Proof.
  replace ((1 - phase) * 2 * PI)%R with (2 * PI - phase * 2 * PI)%R by ring.
  rewrite cos_minus, cos_2PI, sin_2PI. ring.
Qed.

Lemma map_flat_map {A B C : Type} (f : B -> C) (g : A -> list B)
    (l : list A) :
  map f (flat_map g l) = flat_map (fun a => map f (g a)) l.
Proof.
  induction l as [| a l IH]; [reflexivity|]. simpl.
  now rewrite map_app, IH.
Qed.

(** The waning half mirrors the waxing half: for 0 <= phase < 0.5 the
    points drawn at phase 1 - phase are those drawn at phase, reflected in
    the vertical axis of the disc, in the same order. *)
Theorem waning_mirrors_waxing (radius : Z) (phase : R)
    (Hphase : (0 <= phase < 1 / 2)%R) :
  (forall i : Z,
     terminator_row radius (1 - phase) i
     = map (mirror radius) (terminator_row radius phase i)) /\
  terminator_points radius (1 - phase)
  = map (mirror radius) (terminator_points radius phase).
Proof.
  assert (Hrow : forall i : Z,
             terminator_row radius (1 - phase) i
             = map (mirror radius) (terminator_row radius phase i)).
  { intros i. unfold terminator_row.
    assert (G1 : Rle_bool 0 phase = true) by (apply Rle_bool_iff; lra).
    assert (G2 : Rlt_bool phase (1 / 2) = true) by (apply Rlt_bool_iff; lra).
    assert (G3 : Rlt_bool (1 - phase) (1 / 2) = false)
      by (apply Rlt_bool_false; lra).
    assert (G4 : Rle_bool (1 / 2) (1 - phase) = true)
      by (apply Rle_bool_iff; lra).
    assert (G5 : Rle_bool (1 - phase) 1 = true) by (apply Rle_bool_iff; lra).
    rewrite G1, G2, G3, G4, G5, andb_false_r. simpl.
    unfold mirror. simpl. rewrite cos_mirror_phase, mult_IZR.
    apply f_equal2;
      [apply f_equal2; [ring | reflexivity]
      | apply f_equal2;
          [apply f_equal2; [ring | reflexivity] | reflexivity]]. }
  split; [exact Hrow|].
  unfold terminator_points. rewrite map_flat_map.
  apply flat_map_ext. exact Hrow.
Qed.

Lemma waning_mirrors_waxing_witness :
  terminator_points 40 (1 - 1 / 4)
  = map (mirror 40) (terminator_points 40 (1 / 4)).
Proof.
  apply (waning_mirrors_waxing 40 (1 / 4)). lra.
Defined.

(** How the black part changes with the phase, row by row.  Through the
    first branch (0 <= phase < 0.5) the polygon of a row runs from the left
    edge of the image to the terminator point, and that point moves to the
    right as the phase grows: the black part widens.  Through the second
    branch (0.5 <= phase <= 1) it runs from the terminator point to the
    right edge, and the point again moves to the right: the black part
    narrows. *)
Theorem black_part_widens_then_narrows (radius i : Z) (p q : R)
    (Hradius : 0 <= radius) (Hpq : (p <= q)%R) :
  ((0 <= p)%R -> (q < 1 / 2)%R ->
   exists xp xq : R,
     terminator_row radius p i
     = [ (xp, IZR (radius + i)); (0%R, IZR (radius + i)) ] /\
     terminator_row radius q i
     = [ (xq, IZR (radius + i)); (0%R, IZR (radius + i)) ] /\
     (xp <= xq)%R) /\
  ((1 / 2 <= p)%R -> (q <= 1)%R ->
   exists xp xq : R,
     terminator_row radius p i
     = [ (xp, IZR (radius + i)); (IZR (radius * 2), IZR (radius + i)) ] /\
     terminator_row radius q i
     = [ (xq, IZR (radius + i)); (IZR (radius * 2), IZR (radius + i)) ] /\
     (xp <= xq)%R).
Proof.
  pose proof (moon_width_bounds radius i Hradius) as [Hw0 _].
  pose proof PI_RGT_0 as Hpi.
  split.
  - intros Hp Hq. unfold terminator_row.
    assert (G1 : Rle_bool 0 p = true) by (apply Rle_bool_iff; lra).
    assert (G2 : Rlt_bool p (1 / 2) = true) by (apply Rlt_bool_iff; lra).
    assert (G3 : Rle_bool 0 q = true) by (apply Rle_bool_iff; lra).
    assert (G4 : Rlt_bool q (1 / 2) = true) by (apply Rlt_bool_iff; lra).
    rewrite G1, G2, G3, G4. simpl.
    do 2 eexists. split; [reflexivity|]. split; [reflexivity|].
    assert (Hcos : (cos (q * 2 * PI) <= cos (p * 2 * PI))%R)
      by (apply cos_decr_1; nra).
    set (w := moon_width radius i) in *. nra.
  - intros Hp Hq. unfold terminator_row.
    assert (G1 : Rlt_bool p (1 / 2) = false) by (apply Rlt_bool_false; lra).
    assert (G2 : Rle_bool (1 / 2) p = true) by (apply Rle_bool_iff; lra).
    assert (G3 : Rle_bool p 1 = true) by (apply Rle_bool_iff; lra).
    assert (G4 : Rlt_bool q (1 / 2) = false) by (apply Rlt_bool_false; lra).
    assert (G5 : Rle_bool (1 / 2) q = true) by (apply Rle_bool_iff; lra).
    assert (G6 : Rle_bool q 1 = true) by (apply Rle_bool_iff; lra).
    rewrite G1, G2, G3, G4, G5, G6, !andb_false_r. simpl.
    do 2 eexists. split; [reflexivity|]. split; [reflexivity|].
    assert (Hcos : (cos (p * 2 * PI) <= cos (q * 2 * PI))%R)
      by (apply cos_incr_1; nra).
    set (w := moon_width radius i) in *. nra.
Qed.

Lemma black_part_widens_then_narrows_witness :
  exists xp xq : R,
    terminator_row 40 (1 / 8) 0 = [ (xp, IZR (40 + 0)); (0%R, IZR (40 + 0)) ] /\
    terminator_row 40 (1 / 4) 0 = [ (xq, IZR (40 + 0)); (0%R, IZR (40 + 0)) ] /\
    (xp <= xq)%R.
Proof.
  apply (black_part_widens_then_narrows 40 0 (1 / 8) (1 / 4)).
  - lia.
  - lra.
  - lra.
  - lra.
Defined.

(** ** Time labels *)

Lemma digit_inj (n m : Z) :
  0 <= n < 10 -> 0 <= m < 10 -> digit n = digit m -> n = m.
Proof.
  intros Hn Hm E. unfold digit in E.
  apply (f_equal nat_of_ascii) in E.
  rewrite !nat_ascii_embedding in E by lia. lia.
Qed.

Lemma digit_not_colon (n : Z) : 0 <= n < 10 -> digit n <> ":"%char.
Proof.
  intros Hn E. unfold digit in E.
  apply (f_equal nat_of_ascii) in E.
  rewrite nat_ascii_embedding in E by lia.
  change (nat_of_ascii ":") with 58%nat in E. lia.
Qed.

Lemma two_digits_inj (n m : Z) :
  0 <= n < 100 -> 0 <= m < 100 -> two_digits n = two_digits m -> n = m.
Proof.
  intros Hn Hm E. unfold two_digits in E. injection E as E1 E2.
  apply digit_inj in E1;
    [| Z.to_euclidean_division_equations; lia
     | Z.to_euclidean_division_equations; lia].
  apply digit_inj in E2;
    [| Z.to_euclidean_division_equations; lia
     | Z.to_euclidean_division_equations; lia].
  Z.to_euclidean_division_equations. lia.
Qed.

Lemma strftime_24_inj (h m h' m' : Z) :
  0 <= h < 24 -> 0 <= m < 60 -> 0 <= h' < 24 -> 0 <= m' < 60 ->
  strftime_24 h m = strftime_24 h' m' -> h = h' /\ m = m'.
Proof.
  intros Hh Hm Hh' Hm' E. unfold strftime_24 in E.
  assert (Eh : two_digits h = two_digits h' /\ two_digits m = two_digits m').
  { unfold two_digits in *. simpl in E. injection E as E1 E2 E3 E4.
    split; congruence. }
  destruct Eh as [Eh Em].
  split; apply two_digits_inj; try assumption; lia.
Qed.

Lemma strftime_12_lower_inj (h m h' m' : Z) :
  0 <= h < 24 -> 0 <= m < 60 -> 0 <= h' < 24 -> 0 <= m' < 60 ->
  strftime_12_lower h m = strftime_12_lower h' m' -> h = h' /\ m = m'.
Proof.
  intros Hh Hm Hh' Hm' E. unfold strftime_12_lower, hour_12 in E.
  set (k := if h mod 12 =? 0 then 12 else h mod 12) in *.
  set (k' := if h' mod 12 =? 0 then 12 else h' mod 12) in *.
  assert (Hk : 1 <= k <= 12 /\ (k - h) mod 12 = 0).
  { unfold k. destruct (Z.eqb_spec (h mod 12) 0);
      Z.to_euclidean_division_equations; lia. }
  assert (Hk' : 1 <= k' <= 12 /\ (k' - h') mod 12 = 0).
  { unfold k'. destruct (Z.eqb_spec (h' mod 12) 0);
      Z.to_euclidean_division_equations; lia. }
  clearbody k k'.
  assert (Hparts : k = k' /\ two_digits m = two_digits m' /\
                   (h <? 12) = (h' <? 12)).
  { unfold two_digits in *.
    destruct (Z.ltb_spec k 10), (Z.ltb_spec k' 10); simpl in E.
    - injection E as E1 E2 E3 E4.
      split; [apply digit_inj; [lia | lia | exact E1]|].
      split; [congruence|].
      destruct (h <? 12), (h' <? 12); try reflexivity; discriminate.
    - injection E as _ E2. exfalso.
      apply (digit_not_colon (k' mod 10));
        [Z.to_euclidean_division_equations; lia | now symmetry].
    - injection E as _ E2. exfalso.
      apply (digit_not_colon (k mod 10));
        [Z.to_euclidean_division_equations; lia | exact E2].
    - injection E as E1 E2 E3 E4 E5.
      split.
      + apply two_digits_inj; [lia | lia |]. unfold two_digits. congruence.
      + split; [congruence|].
        destruct (h <? 12), (h' <? 12); try reflexivity; discriminate. }
  destruct Hparts as (Ek & Em & Ehalf).
  split; [| apply two_digits_inj; [lia | lia | exact Em]].
  subst k'.
  destruct (Z.ltb_spec h 12), (Z.ltb_spec h' 12); try discriminate;
    Z.to_euclidean_division_equations; lia.
Qed.

Lemma wall_clock_of_day (env : Env) (t : Z) :
  (local_midnight env + tz_offset env * 3600) mod 86400 = 0 ->
  local_midnight env <= t < local_midnight env + 86400 ->
  let s := t - local_midnight env in
  local_hour env t = s / 3600 /\
  local_minute env t = (s / 60) mod 60 /\
  0 <= local_hour env t < 24 /\ 0 <= local_minute env t < 60 /\
  t / 60 = (local_midnight env) / 60
           + 60 * local_hour env t + local_minute env t.
Proof.
  intros Hmid Ht s. unfold local_hour, local_minute.
  set (tz := tz_offset env) in *. set (m := local_midnight env) in *.
  unfold s. clearbody tz m.
  Z.to_euclidean_division_equations. lia.
Qed.

(** Within the local day a time label names its minute: when
    [local_midnight] is a midnight of the configured zone, two samples of
    the day get the same time string exactly when they fall in the same
    minute, in the 24-hour form and in the 12-hour form alike. *)
Theorem time_label_names_the_minute (env : Env) (time : string) (t1 t2 : Z)
    (Hmidnight : (local_midnight env + tz_offset env * 3600) mod 86400 = 0)
    (Ht1 : local_midnight env <= t1 < local_midnight env + 86400)
    (Ht2 : local_midnight env <= t2 < local_midnight env + 86400) :
  time_str env time t1 = time_str env time t2 <-> t1 / 60 = t2 / 60.
Proof.
  destruct (wall_clock_of_day env t1 Hmidnight Ht1) as (_ & _ & Hh1 & Hm1 & E1).
  destruct (wall_clock_of_day env t2 Hmidnight Ht2) as (_ & _ & Hh2 & Hm2 & E2).
  split.
  - intros E. unfold time_str in E.
    assert (Hclock : local_hour env t1 = local_hour env t2 /\
                     local_minute env t1 = local_minute env t2).
    { destruct (String.eqb time "12").
      - now apply strftime_12_lower_inj.
      - now apply strftime_24_inj. }
    destruct Hclock as [Eh Em]. rewrite E1, E2, Eh, Em. reflexivity.
  - intros E.
    assert (Hclock : local_hour env t1 = local_hour env t2 /\
                     local_minute env t1 = local_minute env t2).
    { unfold local_hour, local_minute in *.
      set (tz := tz_offset env) in *. clearbody tz.
      Z.to_euclidean_division_equations. lia. }
    destruct Hclock as [Eh Em]. unfold time_str. now rewrite Eh, Em.
Qed.

Lemma time_label_names_the_minute_witness :
  time_str sample_env "24" 50400 = time_str sample_env "24" 50430
  <-> 50400 / 60 = 50430 / 60.
Proof.
  apply (time_label_names_the_minute sample_env "24" 50400 50430).
  - reflexivity.
  - simpl. lia.
  - simpl. lia.
Defined.

(** The configured time format is tested twice, against "24" for the hour
    labels and against "12" for the time labels.  With "24" both are in
    24-hour form and with "12" both in 12-hour form; with any other string
    the hour labels are in 12-hour form while the time labels are in 24-hour
    form. *)
Theorem time_format_fallbacks (env : Env) (time : string) (t : Z) :
  (time = "24"%string ->
   hour_format_of time = H24 /\
   time_str env time t
   = strftime_24 (local_hour env t) (local_minute env t)) /\
  (time = "12"%string ->
   hour_format_of time = H12 /\
   time_str env time t
   = strftime_12_lower (local_hour env t) (local_minute env t)) /\
  (time <> "24"%string -> time <> "12"%string ->
   hour_format_of time = H12 /\
   time_str env time t
   = strftime_24 (local_hour env t) (local_minute env t)).
Proof.
  unfold hour_format_of, time_str. repeat split.
  - subst. reflexivity.
  - subst. reflexivity.
  - subst. reflexivity.
  - subst. reflexivity.
  - destruct (String.eqb_spec time "24"); [contradiction | reflexivity].
  - destruct (String.eqb_spec time "12"); [contradiction | reflexivity].
Qed.

Example time_strings :
  time_str sample_env "24" 79200 = "14:00"%string /\
  time_str sample_env "12" 79200 = "2:00pm"%string /\
  time_str sample_env "12" 30600 = "12:30am"%string /\
  time_str sample_env "12h" 79200 = "14:00"%string /\
  hour_label (hour_format_of "12h") 14 = HourLabel 2.
Proof. vm_compute. repeat split. Qed.

(** ** The vertical domain in binary64 *)

Lemma pow2_pos (e : Z) : (0 < pow2 e)%Q.
Proof. apply Qpower_0_lt. reflexivity. Qed.

Lemma pow2_plus (a b : Z) : (pow2 (a + b) == pow2 a * pow2 b)%Q.
Proof. apply Qpower_plus. discriminate. Qed.

Lemma pow2_le (a b : Z) : a <= b -> (pow2 a <= pow2 b)%Q.
Proof. intros H. apply Qpower_le_compat_l; [exact H | discriminate]. Qed.

Lemma pow2_lt_inv (a b : Z) : (pow2 a < pow2 b)%Q -> a < b.
Proof. intros H. eapply Qpower_lt_compat_l_inv; [exact H | reflexivity]. Qed.

Lemma pow2_inject (a : Z) : 0 <= a -> (inject_Z (2 ^ a) == pow2 a)%Q.
Proof. intros H. unfold pow2. now rewrite Zpower_Qpower. Qed.

Lemma pow2_half (e : Z) : (pow2 (e - 1) == (1 # 2) * pow2 e)%Q.
Proof.
  replace (e - 1) with (-1 + e) by ring. rewrite pow2_plus. reflexivity.
Qed.

Lemma round_nearest_error (y : Q) :
  (Qabs (inject_Z (round_nearest y) - y) <= 1 # 2)%Q.
Proof.
  unfold round_nearest.
  pose proof (Qfloor_le y) as Hlo. pose proof (Qlt_floor y) as Hhi.
  rewrite inject_Z_plus in Hhi. change (inject_Z 1) with 1%Q in Hhi.
  set (f := Qfloor y) in *.
  apply Qabs_Qle_condition.
  destruct (y - inject_Z f ?= 1 # 2)%Q eqn:C.
  - apply Qeq_alt in C.
    destruct (Z.even f); rewrite ?inject_Z_plus;
      change (inject_Z 1) with 1%Q; split; Lqa.lra.
  - apply Qlt_alt in C. split; Lqa.lra.
  - apply Qgt_alt in C. rewrite inject_Z_plus.
    change (inject_Z 1) with 1%Q. split; Lqa.lra.
Qed.

Lemma Qabs_as_fraction (q : Q) :
  (Qabs q == inject_Z (Z.abs (Qnum q)) / inject_Z (Zpos (Qden q)))%Q.
Proof. destruct q as [n d]. simpl. apply Qmake_Qdiv. Qed.

Lemma Qlog2_floor_lower (q : Q) :
  ~ (q == 0)%Q -> (pow2 (Qlog2_floor q) <= Qabs q)%Q.
Proof.
  intros Hq. unfold Qlog2_floor.
  set (n := Z.abs (Qnum q)). set (d := Zpos (Qden q)).
  destruct (Qle_bool (pow2 (Z.log2 n - Z.log2 d)) (Qabs q)) eqn:E.
  - now apply Qle_bool_iff.
  - assert (Hn : 0 < n).
    { unfold n. destruct q as [[| p | p] dq]; simpl; try lia.
      exfalso. apply Hq. reflexivity. }
    assert (Hd : 0 < d) by (unfold d; lia).
    destruct (Z.log2_spec n Hn) as [Hn1 _].
    destruct (Z.log2_spec d Hd) as [_ Hd2].
    pose proof (Z.log2_nonneg n) as Ha. pose proof (Z.log2_nonneg d) as Hb.
    set (a := Z.log2 n) in *. set (b := Z.log2 d) in *.
    rewrite Qabs_as_fraction. fold n d.
    assert (HdQ : (0 < inject_Z d)%Q)
      by (change 0%Q with (inject_Z 0); now rewrite <- Zlt_Qlt).
    apply Qle_shift_div_l; [exact HdQ|].
    assert (H1 : (inject_Z d <= pow2 (b + 1))%Q).
    { rewrite <- pow2_inject by lia. rewrite <- Zle_Qle.
      unfold Z.succ in Hd2. lia. }
    assert (H2 : (pow2 a <= inject_Z n)%Q).
    { rewrite <- pow2_inject by lia. now rewrite <- Zle_Qle. }
    assert (H3 : (pow2 (a - b - 1) * pow2 (b + 1) == pow2 a)%Q).
    { rewrite <- pow2_plus. replace (a - b - 1 + (b + 1)) with a by ring.
      reflexivity. }
    apply Qle_trans with (pow2 (a - b - 1) * pow2 (b + 1))%Q.
    + apply Qmult_le_l; [apply pow2_pos | exact H1].
    + rewrite H3. exact H2.
Qed.

Lemma b64_exponent_le (z : Q) (j : Z) :
  ~ (z == 0)%Q -> -1074 <= j -> (Qabs z < pow2 (52 + j))%Q ->
  b64_exponent z <= j.
Proof.
  intros Hz Hj Hlt. unfold b64_exponent.
  pose proof (Qlog2_floor_lower z Hz) as Hlow.
  assert (Qlog2_floor z < 52 + j)
    by (apply pow2_lt_inv; eapply Qle_lt_trans; eauto).
  lia.
Qed.

(** The rounding error is at most half a unit in the last place. *)
Lemma b64_nearest_error (z : Q) (j : Z) :
  -1074 <= j -> (Qabs z < pow2 (52 + j))%Q ->
  (Qabs (b64_nearest z - z) <= pow2 (j - 1))%Q.
Proof.
  intros Hj Hlt. unfold b64_nearest.
  destruct (Qeq_bool z 0) eqn:E.
  - apply Qeq_bool_iff in E. rewrite E.
    setoid_replace (0 - 0)%Q with 0%Q by ring. simpl.
    apply Qlt_le_weak, pow2_pos.
  - assert (Hz : ~ (z == 0)%Q).
    { intros H. apply Qeq_bool_iff in H. congruence. }
    pose proof (b64_exponent_le z j Hz Hj Hlt) as He.
    set (e := b64_exponent z) in *.
    pose proof (pow2_pos e) as Hpe.
    pose proof (round_nearest_error (z / pow2 e)) as Herr.
    set (m := inject_Z (round_nearest (z / pow2 e))) in *.
    rewrite Qred_correct.
    setoid_replace (m * pow2 e - z)%Q with ((m - z / pow2 e) * pow2 e)%Q
      by (field; Lqa.lra).
    rewrite Qabs_Qmult, (Qabs_pos (pow2 e)) by Lqa.lra.
    apply Qle_trans with ((1 # 2) * pow2 e)%Q.
    + apply Qmult_le_compat_r; [exact Herr | Lqa.lra].
    + rewrite <- pow2_half. apply pow2_le. lia.
Qed.

Lemma py_min64_finite (xs : list Q) (x : Q) :
  py_min64 (Finite x) (map Finite xs) = Finite (py_min x xs).
Proof.
  revert x. induction xs as [| a xs IH]; intros x; [reflexivity|].
  unfold py_min64, py_min in *. simpl.
  destruct (Qlt_le_dec a x) as [Hlt | Hle].
  - apply Qlt_bool_iff in Hlt. rewrite Hlt. apply IH.
  - assert (E : Qlt_bool a x = false).
    { destruct (Qlt_bool a x) eqn:E; [|reflexivity].
      apply Qlt_bool_iff in E. Lqa.lra. }
    rewrite E. apply IH.
Qed.

Lemma py_max64_finite (xs : list Q) (x : Q) :
  py_max64 (Finite x) (map Finite xs) = Finite (py_max x xs).
Proof.
  revert x. induction xs as [| a xs IH]; intros x; [reflexivity|].
  unfold py_max64, py_max in *. simpl.
  destruct (Qlt_le_dec x a) as [Hlt | Hle].
  - apply Qlt_bool_iff in Hlt. rewrite Hlt. apply IH.
  - assert (E : Qlt_bool x a = false).
    { destruct (Qlt_bool x a) eqn:E; [|reflexivity].
      apply Qlt_bool_iff in E. Lqa.lra. }
    rewrite E. apply IH.
Qed.

Lemma b64_round_finite (z : Q) (j : Z) :
  -1074 <= j -> j <= 960 -> (Qabs z < pow2 (52 + j))%Q ->
  b64_round z = Finite (b64_nearest z) /\
  (Qabs (b64_nearest z - z) <= pow2 (j - 1))%Q.
Proof.
  intros Hj Hj' Hlt.
  pose proof (b64_nearest_error z j Hj Hlt) as Herr.
  split; [|exact Herr].
  unfold b64_round.
  assert (H : (Qabs (b64_nearest z) < pow2 1024)%Q).
  { apply Qabs_Qle_condition in Herr.
    apply Qabs_Qlt_condition in Hlt.
    pose proof (pow2_le (j - 1) (52 + j) ltac:(lia)) as H1.
    pose proof (pow2_le (52 + j) 1012 ltac:(lia)) as H2.
    assert (H3 : (pow2 1012 + pow2 1012 < pow2 1024)%Q) by reflexivity.
    apply Qabs_Qlt_condition. split; Lqa.lra. }
  apply Qlt_bool_iff in H. now rewrite H.
Qed.

(** In binary64 a flat series at 1e16 loses the margin: 1e16 - 0.5 rounds
    back to 1e16, the range is 0.0 and the division of line 274 raises.  At
    the ordinary height -3.994 the range of a flat series is 0.5 - 2^-51,
    below 0.5. *)
Lemma tide_range_b64_counterexample :
  tide_domain_b64 [ Finite 10000000000000000; Finite 10000000000000000 ]
  = Ok (Finite 10000000000000000, Finite 0) /\
  y_ratio_b64 (Finite 10000000000000000) (Finite 10000000000000000) (Finite 0)
  = Raise ZeroDivisionError /\
  float_of_decimal (-3994 # 1000)
  = Finite (-8993688455858881 # 2251799813685248) /\
  tide_domain_b64 [ float_of_decimal (-3994 # 1000) ]
  = Ok (Finite (-158118568167211 # 35184372088832),
        Finite (1125899906842623 # 2251799813685248)) /\
  (1125899906842623 # 2251799813685248 < 1 # 2)%Q.
Proof.
  vm_compute. repeat split.
Qed.

(** C7, amended.  For every non-empty series of heights of magnitude at
    most 2^k, with 0 <= k <= 49, the vertical domain computed in binary64 is
    finite: domainMin is min(heights) - 0.5 rounded, within 2^(k-52) of the
    exact value, domainMax is max(heights), and the range is
    domainMax - domainMin rounded, within 2^(k-51) of the exact difference.
    The range is at least 0.5 - 3 * 2^(k-52), so at least 1/8 and never
    zero, and the y-scaling division raises for no value, also when all
    heights are equal.  The heights are any rationals of that magnitude, so
    in particular the doubles that [float] returns. *)
Theorem tide_range_positive_b64 (v0 : Q) (vs : list Q) (k : Z)
    (Hk : 0 <= k <= 49)
    (Hbound : forall v, In v (v0 :: vs) -> (Qabs v <= pow2 k)%Q) :
  let lo := py_min v0 vs in
  let hi := py_max v0 vs in
  exists min_tide tide_range : Q,
    tide_domain_b64 (map Finite (v0 :: vs))
    = Ok (Finite min_tide, Finite tide_range) /\
    (Qabs (min_tide - (lo - (1 # 2))) <= pow2 (k - 52))%Q /\
    (Qabs (tide_range - (hi - min_tide)) <= pow2 (k - 51))%Q /\
    ((1 # 2) - 3 * pow2 (k - 52) <= tide_range)%Q /\
    (1 # 8 <= tide_range)%Q /\
    (forall value : Float64,
       exists ratio : Float64,
         y_ratio_b64 value (Finite min_tide) (Finite tide_range) = Ok ratio).
Proof.
  intros lo hi.
  assert (Hlo : (Qabs lo <= pow2 k)%Q) by (apply Hbound, py_min_In).
  assert (Hhi : (Qabs hi <= pow2 k)%Q) by (apply Hbound, py_max_In).
  assert (Hle : (lo <= hi)%Q).
  { apply Qle_trans with v0; [apply py_min_le_start | apply py_max_ge_start]. }
  set (p := pow2 k) in *. set (u := pow2 (k - 52)).
  assert (Hp1 : (1 <= p)%Q) by (apply (pow2_le 0 k); lia).
  assert (Hu0 : (0 < u)%Q) by apply pow2_pos.
  assert (Hu8 : (u <= 1 # 8)%Q) by (apply (pow2_le (k - 52) (-3)); lia).
  assert (P1 : (pow2 (52 + (k - 51)) == 2 * p)%Q).
  { replace (52 + (k - 51)) with (1 + k) by ring. now rewrite pow2_plus. }
  assert (P2 : (pow2 (52 + (k - 50)) == 4 * p)%Q).
  { replace (52 + (k - 50)) with (2 + k) by ring. now rewrite pow2_plus. }
  assert (P3 : (pow2 (k - 50 - 1) == 2 * u)%Q).
  { replace (k - 50 - 1) with (1 + (k - 52)) by ring. now rewrite pow2_plus. }
  apply Qabs_Qle_condition in Hlo, Hhi.
  (* domainMin *)
  destruct (b64_round_finite (lo - (1 # 2)) (k - 51)) as [R1 E1];
    [lia | lia | rewrite P1; apply Qabs_Qlt_condition; split; Lqa.lra |].
  replace (k - 51 - 1) with (k - 52) in E1 by ring. fold u in E1.
  set (min_tide := b64_nearest (lo - (1 # 2))) in *.
  pose proof E1 as E1'. apply Qabs_Qle_condition in E1'.
  (* the range *)
  destruct (b64_round_finite (hi - min_tide) (k - 50)) as [R2 E2];
    [lia | lia | rewrite P2; apply Qabs_Qlt_condition; split; Lqa.lra |].
  set (tide_range := b64_nearest (hi - min_tide)) in *.
  pose proof E2 as E2'. rewrite P3 in E2'. apply Qabs_Qle_condition in E2'.
  assert (Hrange : ((1 # 2) - 3 * u <= tide_range)%Q) by Lqa.lra.
  exists min_tide, tide_range.
  split; [|split; [exact E1 | split; [|split; [exact Hrange | split]]]].
  - unfold tide_domain_b64. cbn [map].
    rewrite py_min64_finite, py_max64_finite. fold lo hi.
    cbn [b64_sub]. rewrite R1. cbn [b64_sub]. rewrite R2. reflexivity.
  - replace (k - 51) with (k - 50 - 1) by ring. exact E2.
  - Lqa.lra.
  - intros value. unfold y_ratio_b64, b64_div.
    assert (Hnz : Qeq_bool tide_range 0 = false).
    { destruct (Qeq_bool tide_range 0) eqn:E; [|reflexivity].
      apply Qeq_bool_iff in E. Lqa.lra. }
    rewrite Hnz.
    destruct (b64_sub value (Finite min_tide)); eexists; reflexivity.
Qed.

Lemma tide_range_positive_b64_witness :
  exists min_tide tide_range : Q,
    tide_domain_b64 (map Finite [ 1 # 2; 1 # 2 ])
    = Ok (Finite min_tide, Finite tide_range) /\
    (1 # 8 <= tide_range)%Q.
Proof.
  destruct (tide_range_positive_b64 (1 # 2) [ 1 # 2 ] 10)
    as (min_tide & tide_range & H1 & _ & _ & _ & H2 & _).
  - lia.
  - intros v [<- | [<- | []]]; vm_compute; discriminate.
  - exists min_tide, tide_range. split; [exact H1 | exact H2].
Defined.

Module MachineCheck.
Import PrimFloat.
#[local] Set Warnings "-inexact-float".

(** The rounding of the model against the binary64 arithmetic of the
    machine, on the inputs of the counterexample and a few others. *)
Example b64_nearest_agrees_with_machine :
  Q_of_prim (PrimFloat.sub 1e16%float 0.5%float)
  = Some (b64_nearest (10000000000000000 - (1 # 2))) /\
  Q_of_prim (-3.994)%float = Some (b64_nearest (-3994 # 1000)) /\
  Q_of_prim (PrimFloat.sub (-3.994)%float 0.5%float)
  = Some (b64_nearest (b64_nearest (-3994 # 1000) - (1 # 2))) /\
  Q_of_prim (PrimFloat.div 1%float 3%float) = Some (b64_nearest (1 # 3)) /\
  Q_of_prim (PrimFloat.sub 0.1%float 0.3%float)
  = Some (b64_nearest (b64_nearest (1 # 10) - b64_nearest (3 # 10))) /\
  Q_of_prim (PrimFloat.div 1e-320%float 3%float)
  = Some (b64_nearest (b64_nearest (1 # 10 ^ 320) / 3)).
Proof. vm_compute. repeat split. Qed.

End MachineCheck.
